(** * ticket_auth: the ticket factory, embedded and verified

    The development follows [ticket_auth/ticket_factory.py].  Python text is a
    list of Unicode code points, a byte string a list of octets, both carried
    by [Z].  The library functions the factory calls (string slicing, [split],
    [join], [int(_, 16)], [format], [struct.pack], [urllib.parse.quote] and
    [unquote], the UTF-8 codec, [hashlib] objects) are modelled first, the
    factory's own methods after them, and the properties last. *)

From Stdlib Require Import ZArith Lia Bool String Ascii.
From stdpp Require Import base list.
Import ListNotations.
Local Open Scope Z_scope.

(** ** Python values *)

(** A [str] is a sequence of code points, a [bytes] a sequence of octets. *)
Definition str := list Z.
Definition bytes := list Z.

(** A literal: the code points of an ASCII string constant. *)
Definition lit (s : string) : str :=
  map (fun a => Z.of_N (N_of_ascii a)) (list_ascii_of_string s).

Definition is_byte (b : Z) : bool := (0 <=? b) && (b <? 256).
Definition is_ascii (c : Z) : bool := (0 <=? c) && (c <? 128).

(** Code points a [str] can hold, and those the strict UTF-8 codec encodes
    (everything but the surrogates). *)
Definition is_code_point (c : Z) : bool := (0 <=? c) && (c <? 1114112).
Definition is_surrogate (c : Z) : bool := (55296 <=? c) && (c <? 57344).
Definition is_scalar (c : Z) : bool := is_code_point c && negb (is_surrogate c).

Definition in_range (lo hi c : Z) : bool := (lo <=? c) && (c <=? hi).

Definition mem (c : Z) (s : str) : bool := existsb (Z.eqb c) s.

(** [s.split(sep)] for a one-character separator: never the empty list. *)
Fixpoint split (sep : Z) (s : str) : list str :=
  match s with
  | [] => [[]]
  | c :: s' =>
      if c =? sep then [] :: split sep s'
      else match split sep s' with
           | [] => [[c]]
           | p :: ps => (c :: p) :: ps
           end
  end.

(** [sep.join(parts)]. *)
Fixpoint join (sep : str) (parts : list str) : str :=
  match parts with
  | [] => []
  | p :: ps =>
      match ps with
      | [] => p
      | _ :: _ => p ++ sep ++ join sep ps
      end
  end.

(** Slices [s[:n]], [s[a:]] and [s[a:b]] for non-negative bounds. *)
Definition slice_to (n : nat) (s : str) : str := take n s.
Definition slice_from (a : nat) (s : str) : str := drop a s.
Definition slice (a b : nat) (s : str) : str := take (b - a) (drop a s).

(** ** Hexadecimal text *)

Definition hexdigit_lower (d : Z) : Z := if d <? 10 then 48 + d else 87 + d.
Definition hexdigit_upper (d : Z) : Z := if d <? 10 then 48 + d else 55 + d.

(** Value of a hexadecimal digit, either case. *)
Definition hexval (c : Z) : option Z :=
  if in_range 48 57 c then Some (c - 48)
  else if in_range 97 102 c then Some (c - 87)
  else if in_range 65 70 c then Some (c - 55)
  else None.

Definition is_lower_hex (c : Z) : bool := in_range 48 57 c || in_range 97 102 c.

(** The [w] low hexadecimal digits of [n], most significant first. *)
Definition hex_fixed (w : nat) (n : Z) : str :=
  map (fun i => hexdigit_lower ((n / 16 ^ Z.of_nat i) mod 16)) (rev (seq 0 w)).

(** Number of hexadecimal digits of a non-negative [n] (one for zero). *)
Definition hex_width (n : Z) : nat :=
  if n =? 0 then 1%nat else Z.to_nat (Z.log2 n / 4 + 1).

(** [format(v, '08x')]: sign-aware zero padding to eight columns. *)
Definition format_08x (v : Z) : str :=
  if v <? 0 then 45 :: hex_fixed (Nat.max 7 (hex_width (- v))) (- v)
  else hex_fixed (Nat.max 8 (hex_width v)) v.

(** [bytes.hex()], the text of [hexdigest()]. *)
Definition hexlify (bs : bytes) : str :=
  concat (map (fun b => [hexdigit_lower (b / 16); hexdigit_lower (b mod 16)]) bs).

(** ** Big-endian integers *)

Definition to_bytes_be (n : nat) (v : Z) : bytes :=
  map (fun i => (v / 256 ^ Z.of_nat i) mod 256) (rev (seq 0 n)).

(** [struct.pack(">I", v)]: [struct.error] (here [None]) outside the
    unsigned 32-bit range. *)
Definition pack_I_be (v : Z) : option bytes :=
  if (0 <=? v) && (v <? 4294967296) then Some (to_bytes_be 4 v) else None.

(** ** [ipaddress] values: the version tag and the packed address *)

Inductive ip_address :=
| IPv4Address (ip : Z)
| IPv6Address (ip : Z).

Definition version (a : ip_address) : Z :=
  match a with IPv4Address _ => 4 | IPv6Address _ => 6 end.

Definition packed (a : ip_address) : bytes :=
  match a with
  | IPv4Address ip => to_bytes_be 4 ip
  | IPv6Address ip => to_bytes_be 16 ip
  end.

(** ** [int(text, 16)]

    CPython first maps every non-ASCII white-space character to a blank and
    every non-ASCII decimal digit to its ASCII digit (any other character from
    U+007F on becomes a question mark, which no numeral contains), then reads
    optional blanks, an optional sign, an optional [0x] prefix, hexadecimal
    digits with single underscores between them, and optional blanks.  The two
    tables are those of Unicode 14. *)

Definition unicode_space_table : list Z :=
  [133; 160; 5760; 8192; 8193; 8194; 8195; 8196; 8197; 8198; 8199; 8200;
   8201; 8202; 8232; 8233; 8239; 8287; 12288].

(** First code point of every run of ten decimal digits beyond ASCII. *)
Definition unicode_decimal_runs : list Z :=
  [1632; 1776; 1984; 2406; 2534; 2662; 2790; 2918; 3046; 3174; 3302; 3430;
   3558; 3664; 3792; 3872; 4160; 4240; 6112; 6160; 6470; 6608; 6784; 6800;
   6992; 7088; 7232; 7248; 42528; 43216; 43264; 43472; 43504; 43600; 44016;
   65296; 66720; 68912; 69734; 69872; 69942; 70096; 70384; 70736; 70864;
   71248; 71360; 71472; 71904; 72016; 72784; 73040; 73120; 92768; 92864;
   93008; 120782; 120792; 120802; 120812; 120822; 123200; 123632; 125264;
   130032].

Definition unicode_isspace (c : Z) : bool := mem c unicode_space_table.

Definition unicode_decimal (c : Z) : option Z :=
  match find (fun z => in_range z (z + 9) c) unicode_decimal_runs with
  | Some z => Some (c - z)
  | None => None
  end.

Definition to_ascii_numeral (c : Z) : Z :=
  if c <? 127 then c
  else if unicode_isspace c then 32
  else match unicode_decimal c with
       | Some d => 48 + d
       | None => 63
       end.

(** The C locale's [isspace]. *)
Definition py_isspace (c : Z) : bool := in_range 9 13 c || (c =? 32).

Fixpoint skip_space (s : str) : str :=
  match s with
  | [] => []
  | c :: s' => if py_isspace c then skip_space s' else s
  end.

(** The digit loop: [prev_us] records that the previous character was an
    underscore; the result is the value, the number of digits and the rest. *)
Fixpoint scan_digits (prev_us : bool) (acc : Z) (n : nat) (s : str)
  : option (Z * nat * str) :=
  match s with
  | [] => if prev_us then None else Some (acc, n, s)
  | c :: s' =>
      if c =? 95 then
        if prev_us then None else scan_digits true acc n s'
      else
        match hexval c with
        | Some d => scan_digits false (16 * acc + d) (S n) s'
        | None => if prev_us then None else Some (acc, n, s)
        end
  end.

Definition strip_sign (s : str) : bool * str :=
  match s with
  | c :: r => if c =? 43 then (false, r)
              else if c =? 45 then (true, r)
              else (false, s)
  | [] => (false, s)
  end.

Definition strip_0x (s : str) : str :=
  match s with
  | z :: x :: r =>
      if (z =? 48) && ((x =? 120) || (x =? 88)) then
        match r with
        | u :: r' => if u =? 95 then r' else r
        | [] => r
        end
      else s
  | _ => s
  end.

(** [int(s, 16)]; [None] stands for [ValueError]. *)
Definition int16 (s : str) : option Z :=
  let (neg, s2) := strip_sign (skip_space (map to_ascii_numeral s)) in
  let s3 := strip_0x s2 in
  match s3 with
  | [] => None
  | c :: _ =>
      if c =? 95 then None
      else
        match scan_digits false 0 0 s3 with
        | Some (v, n, rest) =>
            if (n =? 0)%nat then None
            else match skip_space rest with
                 | [] => Some (if neg then - v else v)
                 | _ :: _ => None
                 end
        | None => None
        end
  end.

(** ** The UTF-8 codec *)

(** [chr(c).encode('utf-8')] with [errors='strict']: a surrogate raises
    [UnicodeEncodeError] ([None]). *)
Definition utf8_encode_char (c : Z) : option bytes :=
  if negb (is_scalar c) then None
  else if c <? 128 then Some [c]
  else if c <? 2048 then Some [192 + c / 64; 128 + c mod 64]
  else if c <? 65536 then
    Some [224 + c / 4096; 128 + (c / 64) mod 64; 128 + c mod 64]
  else
    Some [240 + c / 262144; 128 + (c / 4096) mod 64;
          128 + (c / 64) mod 64; 128 + c mod 64].

Fixpoint utf8_encode (s : str) : option bytes :=
  match s with
  | [] => Some []
  | c :: s' =>
      match utf8_encode_char c, utf8_encode s' with
      | Some b, Some bs => Some (b ++ bs)
      | _, _ => None
      end
  end.

Definition REPLACEMENT : Z := 65533.

Definition is_cont (b : Z) : bool := (128 <=? b) && (b <? 192).

(** Second byte of a three-byte and of a four-byte form: a continuation byte
    that neither starts an overlong form nor leads to a surrogate or beyond
    U+10FFFF. *)
Definition second_ok3 (b1 b2 : Z) : bool :=
  is_cont b2 && negb (if b2 <? 160 then b1 =? 224 else b1 =? 237).
Definition second_ok4 (b1 b2 : Z) : bool :=
  is_cont b2 && negb (if b2 <? 144 then b1 =? 240 else b1 =? 244).

(** [bs.decode('utf-8', 'replace')]: every ill-formed run CPython reports
    becomes one U+FFFD, and decoding resumes after it; a form cut short by
    the end of the data is replaced as a whole. *)
Fixpoint utf8_decode_replace (bs : bytes) : str :=
  match bs with
  | [] => []
  | b1 :: t1 =>
      if b1 <? 128 then b1 :: utf8_decode_replace t1
      else if b1 <? 194 then REPLACEMENT :: utf8_decode_replace t1
      else if b1 <? 224 then
        match t1 with
        | [] => [REPLACEMENT]
        | b2 :: t2 =>
            if is_cont b2
            then (b1 mod 32 * 64 + b2 mod 64) :: utf8_decode_replace t2
            else REPLACEMENT :: utf8_decode_replace t1
        end
      else if b1 <? 240 then
        match t1 with
        | [] => [REPLACEMENT]
        | b2 :: t2 =>
            if negb (second_ok3 b1 b2)
            then REPLACEMENT :: utf8_decode_replace t1
            else
              match t2 with
              | [] => [REPLACEMENT]
              | b3 :: t3 =>
                  if is_cont b3
                  then (b1 mod 16 * 4096 + b2 mod 64 * 64 + b3 mod 64)
                         :: utf8_decode_replace t3
                  else REPLACEMENT :: utf8_decode_replace t2
              end
        end
      else if b1 <? 245 then
        match t1 with
        | [] => [REPLACEMENT]
        | b2 :: t2 =>
            if negb (second_ok4 b1 b2)
            then REPLACEMENT :: utf8_decode_replace t1
            else
              match t2 with
              | [] => [REPLACEMENT]
              | b3 :: t3 =>
                  if negb (is_cont b3)
                  then REPLACEMENT :: utf8_decode_replace t2
                  else
                    match t3 with
                    | [] => [REPLACEMENT]
                    | b4 :: t4 =>
                        if is_cont b4
                        then (b1 mod 8 * 262144 + b2 mod 64 * 4096
                              + b3 mod 64 * 64 + b4 mod 64)
                               :: utf8_decode_replace t4
                        else REPLACEMENT :: utf8_decode_replace t3
                    end
              end
        end
      else REPLACEMENT :: utf8_decode_replace t1
  end.

(** ** [urllib.parse.quote] and [urllib.parse.unquote] *)

(** Letters, digits and [_.-~] are never quoted (Python 3.7 and later). *)
Definition always_safe (b : Z) : bool :=
  in_range 65 90 b || in_range 97 122 b || in_range 48 57 b
  || mem b (lit "_.-~").

Definition quote_byte (safe : str) (b : Z) : str :=
  if always_safe b || (is_ascii b && mem b safe) then [b]
  else [37; hexdigit_upper (b / 16); hexdigit_upper (b mod 16)].

Definition quote_from_bytes (safe : str) (bs : bytes) : str :=
  concat (map (quote_byte safe) bs).

(** [quote(s)] with the default [safe='/']: the text is encoded as UTF-8
    (strictly), then every byte outside the safe set becomes [%XX]. *)
Definition quote (s : str) : option str :=
  match utf8_encode s with
  | Some bs => Some (quote_from_bytes (lit "/") bs)
  | None => None
  end.

(** One piece after a [%]: two hexadecimal digits make a byte, anything else
    keeps its percent sign. *)
Definition unquote_item (item : str) : bytes :=
  match item with
  | a :: b :: rest =>
      match hexval a, hexval b with
      | Some x, Some y => (16 * x + y) :: rest
      | _, _ => 37 :: item
      end
  | _ => 37 :: item
  end.

(** [unquote_to_bytes] on ASCII text. *)
Definition unquote_to_bytes (s : str) : bytes :=
  match split 37 s with
  | [] => []
  | first :: items => first ++ concat (map unquote_item items)
  end.

Definition unquote_run (run : str) : str :=
  utf8_decode_replace (unquote_to_bytes run).

(** The text is cut into maximal ASCII runs and the characters between them;
    only the runs are unquoted ([run] is the run read so far). *)
Fixpoint unquote_runs (run : str) (s : str) : str :=
  match s with
  | [] => unquote_run run
  | c :: s' =>
      if is_ascii c then unquote_runs (run ++ [c]) s'
      else unquote_run run ++ c :: unquote_runs [] s'
  end.

(** [unquote(s)] with the defaults [encoding='utf-8'], [errors='replace']. *)
Definition unquote (s : str) : str :=
  if negb (mem 37 s) then s else unquote_runs [] s.

(** ** SHA-512 (FIPS 180-4), the default algorithm of the factory *)

Module Sha512.

Definition mask : Z := 2 ^ 64 - 1.
Definition add64 (x y : Z) : Z := (x + y) mod 2 ^ 64.
Definition not64 (x : Z) : Z := Z.lxor x mask.
Definition shr (n x : Z) : Z := Z.shiftr x n.
Definition rotr (n x : Z) : Z :=
  Z.lor (Z.shiftr x n) (Z.land (Z.shiftl x (64 - n)) mask).

Definition Ch (x y z : Z) : Z := Z.lxor (Z.land x y) (Z.land (not64 x) z).
Definition Maj (x y z : Z) : Z :=
  Z.lxor (Z.lxor (Z.land x y) (Z.land x z)) (Z.land y z).
Definition Sigma0 (x : Z) : Z := Z.lxor (Z.lxor (rotr 28 x) (rotr 34 x)) (rotr 39 x).
Definition Sigma1 (x : Z) : Z := Z.lxor (Z.lxor (rotr 14 x) (rotr 18 x)) (rotr 41 x).
Definition sigma0 (x : Z) : Z := Z.lxor (Z.lxor (rotr 1 x) (rotr 8 x)) (shr 7 x).
Definition sigma1 (x : Z) : Z := Z.lxor (Z.lxor (rotr 19 x) (rotr 61 x)) (shr 6 x).

Definition K : list Z :=
  [
   4794697086780616226; 8158064640168781261; 13096744586834688815;
   16840607885511220156; 4131703408338449720; 6480981068601479193;
   10538285296894168987; 12329834152419229976; 15566598209576043074;
   1334009975649890238; 2608012711638119052; 6128411473006802146;
   8268148722764581231; 9286055187155687089; 11230858885718282805;
   13951009754708518548; 16472876342353939154; 17275323862435702243;
   1135362057144423861; 2597628984639134821; 3308224258029322869;
   5365058923640841347; 6679025012923562964; 8573033837759648693;
   10970295158949994411; 12119686244451234320; 12683024718118986047;
   13788192230050041572; 14330467153632333762; 15395433587784984357;
   489312712824947311; 1452737877330783856; 2861767655752347644;
   3322285676063803686; 5560940570517711597; 5996557281743188959;
   7280758554555802590; 8532644243296465576; 9350256976987008742;
   10552545826968843579; 11727347734174303076; 12113106623233404929;
   14000437183269869457; 14369950271660146224; 15101387698204529176;
   15463397548674623760; 17586052441742319658; 1182934255886127544;
   1847814050463011016; 2177327727835720531; 2830643537854262169;
   3796741975233480872; 4115178125766777443; 5681478168544905931;
   6601373596472566643; 7507060721942968483; 8399075790359081724;
   8693463985226723168; 9568029438360202098; 10144078919501101548;
   10430055236837252648; 11840083180663258601; 13761210420658862357;
   14299343276471374635; 14566680578165727644; 15097957966210449927;
   16922976911328602910; 17689382322260857208; 500013540394364858;
   748580250866718886; 1242879168328830382; 1977374033974150939;
   2944078676154940804; 3659926193048069267; 4368137639120453308;
   4836135668995329356; 5532061633213252278; 6448918945643986474;
   6902733635092675308; 7801388544844847127  ].

Definition words8 : Type := Z * Z * Z * Z * Z * Z * Z * Z.

Definition H0 : words8 :=
  (7640891576956012808, 13503953896175478587, 4354685564936845355,
   11912009170470909681, 5840696475078001361, 11170449401992604703,
   2270897969802886507, 6620516959819538809).

(** The message, a one bit, zeros up to 112 modulo 128, and the bit length
    on sixteen bytes. *)
Definition pad (msg : bytes) : bytes :=
  let n := Z.of_nat (length msg) in
  msg ++ [128] ++ repeat 0 (Z.to_nat ((111 - n) mod 128)) ++ to_bytes_be 16 (8 * n).

Definition from_bytes_be (bs : bytes) : Z :=
  fold_left (fun acc b => 256 * acc + b) bs 0.

(** [n] consecutive groups of [k] elements. *)
Fixpoint chunks {A} (k n : nat) (l : list A) : list (list A) :=
  match n with
  | O => []
  | S n' => take k l :: chunks k n' (drop k l)
  end.

Definition block_words (block : bytes) : list Z :=
  map from_bytes_be (chunks 8 16 block).

(** The message schedule, latest word first. *)
Definition schedule_step (w : list Z) : list Z :=
  add64 (add64 (add64 (sigma1 (nth 1 w 0)) (nth 6 w 0)) (sigma0 (nth 14 w 0)))
        (nth 15 w 0) :: w.

Definition schedule (block : bytes) : list Z :=
  rev (Nat.iter 64 schedule_step (rev (block_words block))).

Definition round (s : words8) (kw : Z * Z) : words8 :=
  let '(a, b, c, d, e, f, g, h) := s in
  let t1 := add64 (add64 (add64 (add64 h (Sigma1 e)) (Ch e f g)) (fst kw)) (snd kw) in
  let t2 := add64 (Sigma0 a) (Maj a b c) in
  (add64 t1 t2, a, b, c, add64 d t1, e, f, g).

Definition compress (s : words8) (block : bytes) : words8 :=
  let '(a, b, c, d, e, f, g, h) := s in
  let '(a', b', c', d', e', f', g', h') :=
    fold_left round (combine K (schedule block)) s in
  (add64 a a', add64 b b', add64 c c', add64 d d',
   add64 e e', add64 f f', add64 g g', add64 h h').

Definition output (s : words8) : bytes :=
  let '(a, b, c, d, e, f, g, h) := s in
  concat (map (to_bytes_be 8) [a; b; c; d; e; f; g; h]).

Definition sha512 (msg : bytes) : bytes :=
  let p := pad msg in
  output (fold_left compress (chunks 128 (length p / 128) p) H0).

End Sha512.

(** ** Exceptions, the store and the monad of effects *)

(** Modelled from the spec: the module [ticket_auth.exception], which the
    factory imports, declares the three error kinds; each carries the
    offending ticket text, and a parse error its reason as well. *)
Inductive TicketError :=
| TicketParseError (ticket : str) (msg : str)
| TicketDigestError (ticket : str)
| TicketExpired (ticket : str).

(** What a call can raise: a ticket error, [struct.error] from [pack],
    [UnicodeEncodeError] from [quote] or [encode], and a marker for a
    reference to no object (unreachable from the factory's methods). *)
Inductive exn :=
| Ticket (e : TicketError)
| struct_error
| UnicodeEncodeError
| InvalidReference.

Inductive result (A : Type) :=
| Ok (a : A)
| Raise (e : exn).
Arguments Ok {A} a.
Arguments Raise {A} e.

(** A hash algorithm as [hashlib] offers it: a digest size and the function
    from the data fed to the digest. *)
Record hash_algorithm := {
  digest_size : nat;
  hash_fn : bytes -> bytes
}.

(** A [hashlib] object: its algorithm and all the data fed so far. *)
Record hash_obj := {
  algorithm : hash_algorithm;
  fed : bytes
}.

(** The store holds the hash objects, addressed by position; [clock] is the
    reading of [time.time()], in whole seconds (an integer expiry is at or
    before a fractional time exactly when it is at or before its floor). *)
Record state := {
  heap : list hash_obj;
  clock : Z
}.

Definition M (A : Type) : Type := state -> result A * state.

#[global] Instance M_ret : MRet M := fun A (a : A) st => (Ok a, st).
#[global] Instance M_bind : MBind M := fun A B (f : A -> M B) (m : M A) st =>
  match m st with
  | (Ok a, st') => f a st'
  | (Raise e, st') => (Raise e, st')
  end.

Definition raise {A} (e : exn) : M A := fun st => (Raise e, st).

Definition lift {A} (e : exn) (o : option A) : M A :=
  match o with
  | Some a => mret a
  | None => raise e
  end.

Definition time_time : M Z := fun st => (Ok (clock st), st).

(** ** [hashlib] objects *)

Definition set_heap (h : list hash_obj) (st : state) : state :=
  {| heap := h; clock := clock st |}.

Definition hashlib_new (alg : hash_algorithm) : M nat := fun st =>
  (Ok (length (heap st)),
   set_heap (heap st ++ [{| algorithm := alg; fed := [] |}]) st).

Definition hash_copy (l : nat) : M nat := fun st =>
  match heap st !! l with
  | Some o => (Ok (length (heap st)), set_heap (heap st ++ [o]) st)
  | None => (Raise InvalidReference, st)
  end.

Definition hash_update (l : nat) (data : bytes) : M unit := fun st =>
  match heap st !! l with
  | Some o =>
      (Ok tt,
       set_heap (<[l := {| algorithm := algorithm o; fed := fed o ++ data |}]>
                   (heap st)) st)
  | None => (Raise InvalidReference, st)
  end.

Definition hash_digest (l : nat) : M bytes := fun st =>
  match heap st !! l with
  | Some o => (Ok (hash_fn (algorithm o) (fed o)), st)
  | None => (Raise InvalidReference, st)
  end.

Definition hash_hexdigest (l : nat) : M str :=
  d ← hash_digest l; mret (hexlify d).

Definition hash_digest_size (l : nat) : M nat := fun st =>
  match heap st !! l with
  | Some o => (Ok (digest_size (algorithm o)), st)
  | None => (Raise InvalidReference, st)
  end.

Definition sha512 : hash_algorithm :=
  {| digest_size := 64; hash_fn := Sha512.sha512 |}.

(** ** The ticket factory *)

(** The code point of a character constant. *)
Definition ord (a : ascii) : Z := Z.of_N (N_of_ascii a).

(** Equality of texts, [==]. *)
Fixpoint str_eqb (a b : str) : bool :=
  match a, b with
  | [], [] => true
  | x :: a', y :: b' => (x =? y) && str_eqb a' b'
  | _, _ => false
  end.

(** An encoding, as [str.encode] uses it: the text to its bytes, or an
    error. *)
Definition codec := str -> option bytes.

Definition utf_8 : codec := utf8_encode.

(** The named tuple a ticket is parsed into. *)
Record TicketInfo := {
  digest : str;
  user_id : str;
  tokens : list str;
  user_data : str;
  valid_until : Z
}.

(** The factory object: the secret and a reference to its hash object. *)
Record TicketFactory := {
  _secret : bytes;
  _hash : nat
}.

Definition _DEFAULT_TIMEOUT : Z := 120.
Definition _DEFAULT_IP : ip_address := IPv4Address 0.

Definition __init__ (secret : bytes) (hashalg : hash_algorithm) : M TicketFactory :=
  h ← hashlib_new hashalg;
  mret {| _secret := secret; _hash := h |}.

Definition _min_ticket_size (self : TicketFactory) : M nat :=
  n ← hash_digest_size (_hash self);
  mret (n * 2 + 8)%nat.

(** [_hexdigest]: both digests are computed in copies of the stored hash
    object. *)
Definition _hexdigest (self : TicketFactory) (data0 data1 : bytes) : M str :=
  hash0 ← hash_copy (_hash self);
  hash_update hash0 ((data0 ++ _secret self) ++ data1);;
  hash1 ← hash_copy (_hash self);
  d ← hash_digest hash0;
  hash_update hash1 (d ++ _secret self);;
  hash_hexdigest hash1.

(** [new]: [None] stands for an omitted argument; [client_ip] is an address
    already parsed, which [ip_address] returns as it is. *)
Definition new (self : TicketFactory) (user_id : str)
    (tokens : option (list str)) (user_data : option str)
    (valid_until : option Z) (client_ip : option ip_address)
    (encoding : codec) : M str :=
  valid_until ← match valid_until with
                | None => t ← time_time; mret (t + _DEFAULT_TIMEOUT)
                | Some v => mret v
                end;
  user_id ← lift UnicodeEncodeError (quote user_id);
  token_str ← match tokens with
              | Some (t :: ts) =>
                  qs ← lift UnicodeEncodeError (mapM quote (t :: ts));
                  mret (join [ord ","] qs)
              | _ => mret []
              end;
  user_str ← match user_data with
             | Some (c :: d) => lift UnicodeEncodeError (quote (c :: d))
             | _ => mret []
             end;
  let ip := match client_ip with
            | None => _DEFAULT_IP
            | Some a => a
            end in
  p ← lift struct_error (pack_I_be valid_until);
  let data0 := ([version ip] ++ packed ip) ++ p in
  data1 ← lift UnicodeEncodeError
             (encoding (join [0] [user_id; token_str; user_str]));
  digest ← _hexdigest self data0 data1;
  let parts := [digest ++ format_08x valid_until ++ user_id; token_str; user_str] in
  mret (join [ord "!"] parts).

(** [parse]: the bare [except] around [int] turns its [ValueError] into a
    parse error; nothing else in the block can raise. *)
Definition parse (self : TicketFactory) (ticket : str) : M TicketInfo :=
  min_size ← _min_ticket_size self;
  if (length ticket <? min_size)%nat
  then raise (Ticket (TicketParseError ticket (lit "Invalid ticket length")))
  else
    ds ← hash_digest_size (_hash self);
    let digest_len := (ds * 2)%nat in
    let digest := slice_to digest_len ticket in
    let time_len := 8%nat in
    time ← lift (Ticket (TicketParseError ticket (lit "Invalid time field")))
             (int16 (slice digest_len (digest_len + time_len) ticket));
    let parts := split (ord "!") (slice_from (digest_len + time_len) ticket) in
    match parts with
    | [p0; p1; p2] =>
        let user_id := unquote p0 in
        let tokens := match p1 with
                      | [] => []
                      | _ :: _ => map unquote (split (ord ",") p1)
                      end in
        let user_data := unquote p2 in
        mret {| digest := digest; user_id := user_id; tokens := tokens;
                user_data := user_data; valid_until := time |}
    | _ => raise (Ticket (TicketParseError ticket (lit "Missing parts")))
    end.

(** [validate]: [parts[1:]] are the user id, the tokens, the user data and
    the expiry, in the order of [new]'s parameters. *)
Definition validate (self : TicketFactory) (ticket : str)
    (client_ip : option ip_address) (now : option Z) (encoding : codec)
  : M TicketInfo :=
  parts ← parse self ticket;
  new_ticket ← new self (user_id parts) (Some (tokens parts))
                  (Some (user_data parts)) (Some (valid_until parts))
                  client_ip encoding;
  ds ← hash_digest_size (_hash self);
  if negb (str_eqb (slice_to (ds * 2) new_ticket) (digest parts))
  then raise (Ticket (TicketDigestError ticket))
  else
    now ← match now with
          | None => time_time
          | Some t => mret t
          end;
    if valid_until parts <=? now
    then raise (Ticket (TicketExpired ticket))
    else mret parts.

(** * Notions used in the statements *)

(** Characters that [quote] can produce. *)
Definition is_pchar (c : Z) : bool := always_safe c || (c =? 47) || (c =? 37).

(** The number read from a text of hexadecimal digits. *)
Definition hex_value (l : str) : Z :=
  fold_left (fun a c => 16 * a + default 0 (hexval c)) l 0.

(** An unsigned hexadecimal numeral: one digit or more, and digits only. *)
Definition is_hex_unsigned (s : str) : bool :=
  match s with
  | [] => false
  | _ :: _ =>
      forallb (fun c => match hexval c with Some _ => true | None => false end) s
  end.

(** A hash algorithm is usable when every digest has the announced size and
    consists of octets. *)
Definition alg_ok (a : hash_algorithm) : Prop :=
  forall m, length (hash_fn a m) = digest_size a
            /\ forallb is_byte (hash_fn a m) = true.

(** The store after some objects have been allocated. *)
Definition extend (ext : list hash_obj) (st : state) : state :=
  set_heap (heap st ++ ext) st.

(** What the two scratch objects of [_hexdigest] have been fed, and the
    text it returns, for a stored object [o]. *)
Definition fed0 (secret : bytes) (o : hash_obj) (data0 data1 : bytes) : bytes :=
  fed o ++ (data0 ++ secret) ++ data1.

Definition fed1 (secret : bytes) (o : hash_obj) (data0 data1 : bytes) : bytes :=
  fed o ++ hash_fn (algorithm o) (fed0 secret o data0 data1) ++ secret.

Definition hexmac (secret : bytes) (o : hash_obj) (data0 data1 : bytes) : str :=
  hexlify (hash_fn (algorithm o) (fed1 secret o data0 data1)).

Definition scratch (secret : bytes) (o : hash_obj) (data0 data1 : bytes)
  : list hash_obj :=
  [ {| algorithm := algorithm o; fed := fed0 secret o data0 data1 |};
    {| algorithm := algorithm o; fed := fed1 secret o data0 data1 |} ].

(** The texts and byte strings [new] builds before it computes the digest,
    for the effective arguments. *)
Record pieces := {
  p_user_id : str;
  p_token_str : str;
  p_user_str : str;
  p_data0 : bytes;
  p_data1 : bytes
}.

(** [new] up to the digest: the first failure, or the pieces. *)
Definition prepare (uid : str) (toks : list str) (ud : str) (vu : Z)
    (ip : ip_address) (enc : codec) : result pieces :=
  match quote uid with
  | None => Raise UnicodeEncodeError
  | Some qid =>
    match mapM quote toks with
    | None => Raise UnicodeEncodeError
    | Some qs =>
      match quote ud with
      | None => Raise UnicodeEncodeError
      | Some qud =>
        match pack_I_be vu with
        | None => Raise struct_error
        | Some p =>
          match enc (join [0] [qid; join [ord ","] qs; qud]) with
          | None => Raise UnicodeEncodeError
          | Some d1 =>
              Ok {| p_user_id := qid; p_token_str := join [ord ","] qs;
                    p_user_str := qud;
                    p_data0 := ([version ip] ++ packed ip) ++ p;
                    p_data1 := d1 |}
          end
        end
      end
    end
  end.

(** The effective expiry: the argument, or the clock plus the default
    lifetime. *)
Definition expiry (vu : option Z) (st : state) : Z :=
  match vu with
  | Some v => v
  | None => clock st + _DEFAULT_TIMEOUT
  end.

(** The ticket [new] assembles from the pieces, for a stored object [o]. *)
Definition ticket_text (secret : bytes) (o : hash_obj) (v : Z) (p : pieces) : str :=
  join [ord "!"]
    [hexmac secret o (p_data0 p) (p_data1 p) ++ format_08x v ++ p_user_id p;
     p_token_str p; p_user_str p].

(** What [parse] returns for a digest size: it reads nothing else of the
    factory. *)
Definition parse_text (ds : nat) (ticket : str) : result TicketInfo :=
  if (length ticket <? ds * 2 + 8)%nat
  then Raise (Ticket (TicketParseError ticket (lit "Invalid ticket length")))
  else
    match int16 (slice (ds * 2) (ds * 2 + 8) ticket) with
    | None => Raise (Ticket (TicketParseError ticket (lit "Invalid time field")))
    | Some time =>
        match split (ord "!") (slice_from (ds * 2 + 8) ticket) with
        | [p0; p1; p2] =>
            Ok {| digest := slice_to (ds * 2) ticket;
                  user_id := unquote p0;
                  tokens := match p1 with
                            | [] => []
                            | _ :: _ => map unquote (split (ord ",") p1)
                            end;
                  user_data := unquote p2;
                  valid_until := time |}
        | _ => Raise (Ticket (TicketParseError ticket (lit "Missing parts")))
        end
    end.

(** A concrete factory, for the examples: the store after
    [TicketFactory("s3cret", "sha512")] was built in an empty one. *)
Definition demo_start : state := {| heap := []; clock := 0 |}.

Definition demo_factory : TicketFactory :=
  {| _secret := lit "s3cret"; _hash := 0 |}.

Definition demo_state : state :=
  {| heap := [ {| algorithm := sha512; fed := [] |} ]; clock := 0 |}.

Definition demo_hash : hash_obj := {| algorithm := sha512; fed := [] |}.

(** A forged ticket that is also long expired. *)
Definition forged_ticket : str :=
  repeat 48 128 ++ lit "00000001" ++ lit "alice!!".

Definition forged_parts : TicketInfo :=
  {| digest := repeat 48 128; user_id := lit "alice"; tokens := [];
     user_data := []; valid_until := 1 |}.

Definition forged_pieces : pieces :=
  {| p_user_id := lit "alice"; p_token_str := []; p_user_str := [];
     p_data0 := [4; 0; 0; 0; 0; 0; 0; 0; 1];
     p_data1 := lit "alice" ++ [0; 0] |}.

(** The ticket of the scenario: user ["alice"], no tokens, no user data,
    expiry 1000000000, no address, secret ["s3cret"], SHA-512. *)
Definition alice_pieces : pieces :=
  {| p_user_id := lit "alice"; p_token_str := []; p_user_str := [];
     p_data0 := [4; 0; 0; 0; 0] ++ to_bytes_be 4 1000000000;
     p_data1 := lit "alice" ++ [0; 0] |}.

Definition alice_ticket : str :=
  lit "2903b0235b262f91c538c41312f67ec222ec3dbf1b7fd30c4f4494bcfe580329"
  ++ lit "ee34d28ad302a18a598ec6b96877669656c47f50e686a0a8a632bc37fb4b295b"
  ++ lit "3b9aca00alice!!".

(** A ticket text whose time field carries a sign. *)
Definition signed_ticket : str := repeat 48 128 ++ lit "-0000001" ++ lit "!!".

(** * Further notions *)

(** The token sequence as a ticket carries it: the single empty token is
    written like no token. *)
Definition norm_tokens (toks : list str) : list str :=
  match toks with
  | [ [] ] => []
  | _ => toks
  end.

(** What follows the digest in the ticket [new] assembles. *)
Definition ticket_body (v : Z) (p : pieces) : str :=
  format_08x v
  ++ p_user_id p ++ ord "!" :: p_token_str p ++ ord "!" :: p_user_str p.

(** The texts hold no surrogate, so [quote] can encode them. *)
Definition scalar_texts (uid : str) (toks : list str) (ud : str) : bool :=
  forallb is_scalar uid
  && forallb (forallb is_scalar) toks
  && forallb is_scalar ud.

Definition scalar_fields (parts : TicketInfo) : bool :=
  scalar_texts (user_id parts) (tokens parts) (user_data parts).

(** The characters a ticket is made of: lower-case hexadecimal digits, what
    [quote] produces, and the two separators. *)
Definition is_ticket_char (c : Z) : bool :=
  is_lower_hex c || is_pchar c || (c =? ord "!") || (c =? ord ",").

(** An address in the range of its version. *)
Definition ip_ok (a : ip_address) : bool :=
  match a with
  | IPv4Address n => (0 <=? n) && (n <? 2 ^ 32)
  | IPv6Address n => (0 <=? n) && (n <? 2 ^ 128)
  end.

(** The pieces of the ticket bound to 10.0.0.1 and of the one bound to
    10.0.0.2, for user ["alice"] and expiry 1000000000. *)
Definition bound_pieces (last : Z) : pieces :=
  {| p_user_id := lit "alice"; p_token_str := []; p_user_str := [];
     p_data0 := [4; 10; 0; 0; last] ++ to_bytes_be 4 1000000000;
     p_data1 := lit "alice" ++ [0; 0] |}.
(** * Properties *)

(** Comparisons to propositions, in the hypotheses and by cases in the goal. *)
Ltac bool_hyps :=
  repeat match goal with
    | H : _ && _ = true |- _ => apply andb_true_iff in H; destruct H
    | H : _ || _ = false |- _ => apply orb_false_iff in H; destruct H
    | H : negb _ = true |- _ => apply negb_true_iff in H
    | H : negb _ = false |- _ => apply negb_false_iff in H
    | H : (_ <? _) = true |- _ => apply Z.ltb_lt in H
    | H : (_ <? _) = false |- _ => apply Z.ltb_ge in H
    | H : (_ <=? _) = true |- _ => apply Z.leb_le in H
    | H : (_ <=? _) = false |- _ => apply Z.leb_gt in H
    | H : (_ =? _) = true |- _ => apply Z.eqb_eq in H
    | H : (_ =? _) = false |- _ => apply Z.eqb_neq in H
    end.

Ltac cmp_cases :=
  repeat match goal with
    | |- context [?a <? ?b] => destruct (Z.ltb_spec a b)
    | |- context [?a <=? ?b] => destruct (Z.leb_spec a b)
    | |- context [?a =? ?b] => destruct (Z.eqb_spec a b)
    end.

(** ** Splitting and joining *)

Lemma split_nonempty sep s : split sep s <> [].
Proof.
  destruct s as [|c s]; simpl; [discriminate|].
  destruct (c =? sep); [discriminate|].
  destruct (split sep s); discriminate.
Qed.

Lemma split_no_sep sep s : mem sep s = false -> split sep s = [s].
Proof.
  induction s as [|c s IH]; simpl; intros H; [reflexivity|].
  apply orb_false_iff in H as [H1 H2].
  rewrite Z.eqb_sym, H1, (IH H2). reflexivity.
Qed.

Lemma split_app sep a b :
  mem sep a = false -> split sep (a ++ sep :: b) = a :: split sep b.
Proof.
  induction a as [|c a IH]; simpl; intros H.
  - rewrite Z.eqb_refl. reflexivity.
  - apply orb_false_iff in H as [H1 H2].
    rewrite Z.eqb_sym, H1, (IH H2). reflexivity.
Qed.

Lemma join_cons2 sep p q ps :
  join [sep] (p :: q :: ps) = p ++ sep :: join [sep] (q :: ps).
Proof. reflexivity. Qed.

Lemma split_join sep p ps :
  forallb (fun x => negb (mem sep x)) (p :: ps) = true ->
  split sep (join [sep] (p :: ps)) = p :: ps.
Proof.
  revert p. induction ps as [|q ps IH]; intros p H.
  - simpl in *. apply split_no_sep.
    apply andb_true_iff in H as [H _]. now apply negb_true_iff in H.
  - rewrite join_cons2.
    apply andb_true_iff in H as [H1 H2]. apply negb_true_iff in H1.
    rewrite (split_app _ _ _ H1), (IH _ H2). reflexivity.
Qed.

Lemma mem_app c a b : mem c (a ++ b) = mem c a || mem c b.
Proof. apply existsb_app. Qed.

Lemma join3 sep a b c : join sep [a; b; c] = a ++ sep ++ b ++ sep ++ c.
Proof. reflexivity. Qed.

Lemma str_eqb_eq a b : str_eqb a b = true <-> a = b.
Proof.
  revert b. induction a as [|x a IH]; intros [|y b]; simpl;
    try (split; [discriminate|congruence]); [tauto|].
  rewrite andb_true_iff, Z.eqb_eq, IH.
  split; [intros [-> ->]; reflexivity | intros H; injection H; auto].
Qed.

(** ** Percent-encoding *)

Lemma always_safe_byte b : always_safe b = true -> 0 <= b < 128 /\ b <> 37.
Proof.
  unfold always_safe, in_range, mem, lit; simpl. intros H.
  repeat (apply orb_true_iff in H as [H|H]); bool_hyps; try lia; discriminate.
Qed.

Lemma is_pchar_plain c :
  is_pchar c = true -> is_ascii c = true /\ c <> 33 /\ c <> 44 /\ c <> 0.
Proof.
  unfold is_pchar, always_safe, in_range, mem, lit, is_ascii; simpl. intros H.
  repeat (apply orb_true_iff in H as [H|H]); bool_hyps;
    (split; [apply andb_true_iff; rewrite Z.leb_le, Z.ltb_lt|]; lia) || discriminate.
Qed.

Lemma hexdigit_upper_safe d :
  0 <= d < 16 -> always_safe (hexdigit_upper d) = true.
Proof.
  intros H. unfold always_safe, hexdigit_upper, in_range.
  destruct (Z.ltb_spec d 10).
  - replace (48 <=? 48 + d) with true by (symmetry; apply Z.leb_le; lia).
    replace (48 + d <=? 57) with true by (symmetry; apply Z.leb_le; lia).
    simpl. now rewrite !orb_true_r.
  - replace (65 <=? 55 + d) with true by (symmetry; apply Z.leb_le; lia).
    replace (55 + d <=? 90) with true by (symmetry; apply Z.leb_le; lia).
    reflexivity.
Qed.

Lemma hexval_upper d : 0 <= d < 16 -> hexval (hexdigit_upper d) = Some d.
Proof.
  intros H. unfold hexval, hexdigit_upper, in_range.
  destruct (Z.ltb_spec d 10); cmp_cases; simpl; try lia; f_equal; lia.
Qed.

Lemma mem_slash b : mem b (lit "/") = true -> b = 47.
Proof.
  change (mem b (lit "/")) with ((b =? 47) || false).
  rewrite orb_false_r. apply Z.eqb_eq.
Qed.

Lemma quote_byte_chars b :
  is_byte b = true -> forallb is_pchar (quote_byte (lit "/") b) = true.
Proof.
  intros Hb. unfold quote_byte, is_byte in *. bool_hyps.
  destruct (always_safe b || is_ascii b && mem b (lit "/")) eqn:E.
  - cbn [forallb]. rewrite andb_true_r. unfold is_pchar.
    apply orb_true_iff in E as [->|E]; [reflexivity|].
    apply andb_true_iff in E as [_ E]. apply mem_slash in E. now subst b.
  - cbn [forallb]. unfold is_pchar at 2 3.
    rewrite !hexdigit_upper_safe; [reflexivity| |].
    + apply Z.mod_pos_bound; lia.
    + split; [apply Z.div_pos; lia | apply Z.div_lt_upper_bound; lia].
Qed.

(** ** The library models on known values *)

Example sha512_abc :
  hexlify (Sha512.sha512 (lit "abc"))
  = lit "ddaf35a193617abacc417349ae20413112e6fa4e89a97ea20a9eeee64b55d39a"
    ++ lit "2192992a274fc1a836ba3c23a3feebbd454d4423643ce80e2a9ac94fa54ca49f".
Proof. vm_compute. reflexivity. Qed.

Example int16_plain : int16 (lit "3b9aca00") = Some 1000000000.
Proof. reflexivity. Qed.

Example int16_signed : int16 (lit "-0000001") = Some (-1).
Proof. reflexivity. Qed.

Example int16_prefixed : int16 (lit " 0x_1_f ") = Some 31.
Proof. reflexivity. Qed.

Example int16_not_hex : int16 (lit "0000000g") = None.
Proof. reflexivity. Qed.

Example int16_double_underscore : int16 (lit "1__2") = None.
Proof. reflexivity. Qed.

Example format_08x_small : format_08x 255 = lit "000000ff".
Proof. reflexivity. Qed.

Example format_08x_negative : format_08x (-1) = lit "-0000001".
Proof. reflexivity. Qed.

Example quote_delimiters :
  quote (lit "a,b!c/d") = Some (lit "a%2Cb%21c/d").
Proof. reflexivity. Qed.

Example quote_euro : quote [8364] = Some (lit "%E2%82%AC").
Proof. reflexivity. Qed.

Example quote_surrogate : quote [55296] = None.
Proof. reflexivity. Qed.

Example unquote_euro : unquote (lit "%E2%82%AC%zz%4") = 8364 :: lit "%zz%4".
Proof. reflexivity. Qed.

Example utf8_truncated : utf8_decode_replace [65; 226; 130] = [65; REPLACEMENT].
Proof. reflexivity. Qed.

Example utf8_overlong :
  utf8_decode_replace [192; 128] = [REPLACEMENT; REPLACEMENT].
Proof. reflexivity. Qed.

Example split_empty_fields : split (ord "!") (lit "!!") = [[]; []; []].
Proof. reflexivity. Qed.

(** ** The UTF-8 codec round-trips *)

Ltac divmod_lia := Z.div_mod_to_equations; lia.

Lemma utf8_encode_char_bytes c b :
  utf8_encode_char c = Some b -> forallb is_byte b = true.
Proof.
  unfold utf8_encode_char, is_scalar, is_code_point, is_surrogate, is_byte.
  destruct (_ && negb _) eqn:E; [|discriminate]. cbn [negb]. bool_hyps.
  intros Henc.
  repeat match type of Henc with
    | (if ?x <? ?y then _ else _) = _ => destruct (Z.ltb_spec x y)
    end;
    injection Henc as <-; cbn [forallb];
    rewrite ?andb_true_iff, ?Z.leb_le, ?Z.ltb_lt; repeat split; divmod_lia.
Qed.

Lemma utf8_decode_encode_char c b rest :
  utf8_encode_char c = Some b ->
  utf8_decode_replace (b ++ rest) = c :: utf8_decode_replace rest.
Proof.
  unfold utf8_encode_char, is_scalar, is_code_point, is_surrogate.
  destruct (_ && negb _) eqn:E; [|discriminate]. cbn [negb]. bool_hyps.
  intros Henc.
  repeat match type of Henc with
    | (if ?x <? ?y then _ else _) = _ => destruct (Z.ltb_spec x y)
    end;
    injection Henc as <-; cbn [app utf8_decode_replace];
    unfold second_ok3, second_ok4, is_cont;
    repeat match goal with
      | |- context [?a <? ?b] =>
          first [ replace (a <? b) with true by (symmetry; apply Z.ltb_lt; divmod_lia)
                | replace (a <? b) with false by (symmetry; apply Z.ltb_ge; divmod_lia) ]
      | |- context [?a <=? ?b] =>
          first [ replace (a <=? b) with true by (symmetry; apply Z.leb_le; divmod_lia)
                | replace (a <=? b) with false by (symmetry; apply Z.leb_gt; divmod_lia) ]
      | |- context [?a =? ?b] =>
          first [ replace (a =? b) with false by (symmetry; apply Z.eqb_neq; divmod_lia)
                | replace (a =? b) with true by (symmetry; apply Z.eqb_eq; divmod_lia) ]
      end;
    cbn [andb negb]; cmp_cases; cbn [negb];
    try (f_equal; divmod_lia);
    exfalso; apply andb_false_iff in H0 as [H0|H0]; bool_hyps; divmod_lia.
Qed.

Lemma utf8_decode_encode s bs :
  utf8_encode s = Some bs -> utf8_decode_replace bs = s.
Proof.
  revert bs. induction s as [|c s IH]; cbn [utf8_encode]; intros bs Hs.
  - injection Hs as <-. reflexivity.
  - destruct (utf8_encode_char c) as [b|] eqn:Ec; [|discriminate].
    destruct (utf8_encode s) as [bs'|]; [|discriminate].
    injection Hs as <-.
    rewrite (utf8_decode_encode_char _ _ _ Ec), (IH _ eq_refl). reflexivity.
Qed.

Lemma utf8_encode_bytes s bs :
  utf8_encode s = Some bs -> forallb is_byte bs = true.
Proof.
  revert bs. induction s as [|c s IH]; cbn [utf8_encode]; intros bs Hs.
  - injection Hs as <-. reflexivity.
  - destruct (utf8_encode_char c) as [b|] eqn:Ec; [|discriminate].
    destruct (utf8_encode s) as [bs'|]; [|discriminate].
    injection Hs as <-.
    rewrite forallb_app, (utf8_encode_char_bytes _ _ Ec), (IH _ eq_refl).
    reflexivity.
Qed.

(** Exactly the texts without surrogates can be encoded. *)
Lemma utf8_encode_Some s :
  forallb is_scalar s = true <-> exists bs, utf8_encode s = Some bs.
Proof.
  induction s as [|c s IH]; cbn [utf8_encode forallb].
  - split; [intros _; now exists []|reflexivity].
  - rewrite andb_true_iff, IH. unfold utf8_encode_char.
    destruct (is_scalar c); cbn [negb].
    + split.
      * intros [_ [bs ->]].
        destruct (c <? 128), (c <? 2048), (c <? 65536); eexists; reflexivity.
      * intros [bs Hbs]. split; [reflexivity|].
        destruct (utf8_encode s) as [bs'|]; [now exists bs'|].
        destruct (c <? 128), (c <? 2048), (c <? 65536); discriminate.
    + split; [intros [? _]; discriminate|intros [? ?]; discriminate].
Qed.

(** ** [unquote] undoes [quote] *)

Lemma hexval_not_percent h x : hexval h = Some x -> h <> 37.
Proof. intros H ->. discriminate H. Qed.

Lemma utb_plain c r :
  c <> 37 -> unquote_to_bytes (c :: r) = c :: unquote_to_bytes r.
Proof.
  intros Hc. unfold unquote_to_bytes. cbn [split].
  destruct (Z.eqb_spec c 37) as [|_]; [contradiction|].
  destruct (split 37 r) eqn:E; [now apply split_nonempty in E|reflexivity].
Qed.

Lemma utb_escape h1 h2 x y r :
  hexval h1 = Some x -> hexval h2 = Some y ->
  unquote_to_bytes (37 :: h1 :: h2 :: r) = (16 * x + y) :: unquote_to_bytes r.
Proof.
  intros H1 H2. unfold unquote_to_bytes.
  change (split 37 (37 :: h1 :: h2 :: r)) with ([] :: split 37 (h1 :: h2 :: r)).
  cbn [split].
  destruct (Z.eqb_spec h1 37) as [E|_]; [now apply hexval_not_percent in H1|].
  destruct (Z.eqb_spec h2 37) as [E|_]; [now apply hexval_not_percent in H2|].
  destruct (split 37 r) eqn:E; [now apply split_nonempty in E|].
  cbn [map concat app unquote_item]. rewrite H1, H2. reflexivity.
Qed.

Lemma utb_quote bs :
  forallb is_byte bs = true ->
  unquote_to_bytes (quote_from_bytes (lit "/") bs) = bs.
Proof.
  unfold quote_from_bytes.
  induction bs as [|b bs IH]; cbn [forallb map concat]; intros Hb.
  - reflexivity.
  - apply andb_true_iff in Hb as [Hb Hbs]. unfold quote_byte at 1.
    unfold is_byte in Hb. bool_hyps.
    destruct (always_safe b || is_ascii b && mem b (lit "/")) eqn:E.
    + cbn [app]. rewrite utb_plain, (IH Hbs); [reflexivity|].
      apply orb_true_iff in E as [E|E].
      * now apply always_safe_byte in E.
      * apply andb_true_iff in E as [_ E]. apply mem_slash in E. lia.
    + cbn [app].
      rewrite (utb_escape _ _ (b / 16) (b mod 16)), (IH Hbs).
      * f_equal. divmod_lia.
      * apply hexval_upper. divmod_lia.
      * apply hexval_upper. divmod_lia.
Qed.

Lemma quote_from_bytes_chars bs :
  forallb is_byte bs = true ->
  forallb is_pchar (quote_from_bytes (lit "/") bs) = true.
Proof.
  unfold quote_from_bytes.
  induction bs as [|b bs IH]; cbn [forallb map concat]; intros Hb.
  - reflexivity.
  - apply andb_true_iff in Hb as [Hb Hbs].
    now rewrite forallb_app, (quote_byte_chars _ Hb), (IH Hbs).
Qed.

Lemma quote_chars s q : quote s = Some q -> forallb is_pchar q = true.
Proof.
  unfold quote. destruct (utf8_encode s) as [bs|] eqn:E; [|discriminate].
  intros H. injection H as <-.
  apply quote_from_bytes_chars, (utf8_encode_bytes _ _ E).
Qed.

Lemma pchars_ascii q : forallb is_pchar q = true -> forallb is_ascii q = true.
Proof.
  induction q as [|c q IH]; cbn [forallb]; [reflexivity|].
  intros H. apply andb_true_iff in H as [Hc Hq].
  apply is_pchar_plain in Hc as [-> _]. now rewrite IH.
Qed.

Lemma pchars_no_delim q c :
  c = 33 \/ c = 44 \/ c = 0 -> forallb is_pchar q = true -> mem c q = false.
Proof.
  intros Hc. induction q as [|x q IH]; cbn [forallb mem existsb]; [reflexivity|].
  intros H. apply andb_true_iff in H as [Hx Hq].
  apply is_pchar_plain in Hx as (_ & ? & ? & ?).
  fold (mem c q). rewrite (IH Hq), orb_false_r. apply Z.eqb_neq. lia.
Qed.

Lemma decode_ascii s : forallb is_ascii s = true -> utf8_decode_replace s = s.
Proof.
  induction s as [|c s IH]; cbn [forallb utf8_decode_replace]; [reflexivity|].
  intros H. apply andb_true_iff in H as [Hc Hs]. unfold is_ascii in Hc.
  bool_hyps. destruct (Z.ltb_spec c 128); [|lia]. now rewrite (IH Hs).
Qed.

Lemma unquote_run_plain s :
  mem 37 s = false -> forallb is_ascii s = true -> unquote_run s = s.
Proof.
  intros Hp Ha. unfold unquote_run, unquote_to_bytes.
  rewrite (split_no_sep _ _ Hp). cbn [map concat]. rewrite app_nil_r.
  now apply decode_ascii.
Qed.

Lemma unquote_runs_ascii run s :
  forallb is_ascii s = true -> unquote_runs run s = unquote_run (run ++ s).
Proof.
  revert run. induction s as [|c s IH]; cbn [forallb unquote_runs]; intros run H.
  - now rewrite app_nil_r.
  - apply andb_true_iff in H as [Hc Hs]. rewrite Hc, (IH _ Hs).
    now rewrite <- app_assoc.
Qed.

Lemma unquote_quote s q : quote s = Some q -> unquote q = s.
Proof.
  intros Hq. pose proof (pchars_ascii _ (quote_chars _ _ Hq)) as Ha.
  assert (Hrun : unquote_run q = s).
  { unfold quote in Hq. destruct (utf8_encode s) as [bs|] eqn:E; [|discriminate].
    injection Hq as <-. unfold unquote_run.
    rewrite (utb_quote _ (utf8_encode_bytes _ _ E)).
    now apply utf8_decode_encode. }
  unfold unquote. destruct (mem 37 q) eqn:Hp; cbn [negb].
  - now rewrite (unquote_runs_ascii _ _ Ha).
  - now rewrite <- (unquote_run_plain _ Hp Ha).
Qed.

Lemma quote_nil : quote [] = Some [].
Proof. reflexivity. Qed.

Lemma quote_nil_inv s : quote s = Some [] -> s = [].
Proof. intros H. now rewrite <- (unquote_quote _ _ H). Qed.

Lemma quote_Some s :
  forallb is_scalar s = true <-> exists q, quote s = Some q.
Proof.
  rewrite utf8_encode_Some. unfold quote. split.
  - intros [bs ->]. eexists; reflexivity.
  - intros [q H]. destruct (utf8_encode s) as [bs|]; [now exists bs|discriminate].
Qed.

(** The same, token by token. *)
Lemma mapM_quote_Some (ts : list str) :
  forallb (forallb is_scalar) ts = true <-> exists qs, mapM quote ts = Some qs.
Proof.
  induction ts as [|t ts IH]; cbn [forallb].
  - split; [intros _; now exists []|reflexivity].
  - rewrite andb_true_iff, IH, quote_Some. split.
    + intros [[q Hq] [qs Hqs]]. exists (q :: qs).
      cbn. rewrite Hq. cbn. rewrite Hqs. reflexivity.
    + intros [qs H]. cbn in H. destruct (quote t) as [q|]; [|discriminate].
      cbn in H. destruct (mapM quote ts) as [qs'|]; [|discriminate].
      split; eexists; reflexivity.
Qed.

Lemma mapM_quote_unquote (ts qs : list str) :
  mapM quote ts = Some qs -> map unquote qs = ts.
Proof.
  revert qs. induction ts as [|t ts IH]; intros qs H; cbn in H.
  - injection H as <-. reflexivity.
  - destruct (quote t) as [q|] eqn:Hq; [|discriminate]. cbn in H.
    destruct (mapM quote ts) as [qs'|]; [|discriminate]. cbn in H.
    injection H as <-. cbn [map].
    now rewrite (unquote_quote _ _ Hq), (IH _ eq_refl).
Qed.

Lemma mapM_quote_chars (ts qs : list str) :
  mapM quote ts = Some qs -> forallb (forallb is_pchar) qs = true.
Proof.
  revert qs. induction ts as [|t ts IH]; intros qs H; cbn in H.
  - injection H as <-. reflexivity.
  - destruct (quote t) as [q|] eqn:Hq; [|discriminate]. cbn in H.
    destruct (mapM quote ts) as [qs'|]; [|discriminate]. cbn in H.
    injection H as <-. cbn [forallb].
    now rewrite (quote_chars _ _ Hq), (IH _ eq_refl).
Qed.

(** ** Hexadecimal text and packed integers *)

Lemma length_hexlify bs : length (hexlify bs) = (length bs * 2)%nat.
Proof.
  unfold hexlify. induction bs as [|b bs IH]; cbn [map concat app length];
    [reflexivity|]. rewrite IH. reflexivity.
Qed.

Lemma hexdigit_lower_hex d : 0 <= d < 16 -> is_lower_hex (hexdigit_lower d) = true.
Proof.
  intros H. unfold is_lower_hex, hexdigit_lower, in_range.
  destruct (Z.ltb_spec d 10); cmp_cases; cbn; try reflexivity; lia.
Qed.

Lemma hexval_lower d : 0 <= d < 16 -> hexval (hexdigit_lower d) = Some d.
Proof.
  intros H. unfold hexval, hexdigit_lower, in_range.
  destruct (Z.ltb_spec d 10); cmp_cases; cbn; try lia; f_equal; lia.
Qed.

Lemma hexlify_lower bs :
  forallb is_byte bs = true -> forallb is_lower_hex (hexlify bs) = true.
Proof.
  unfold hexlify. induction bs as [|b bs IH]; cbn [map concat app forallb];
    [reflexivity|]. intros H. apply andb_true_iff in H as [Hb Hbs].
  unfold is_byte in Hb. bool_hyps.
  rewrite !hexdigit_lower_hex, (IH Hbs) by divmod_lia. reflexivity.
Qed.

Lemma hex_fixed_S w n :
  hex_fixed (S w) n
  = hexdigit_lower ((n / 16 ^ Z.of_nat w) mod 16) :: hex_fixed w n.
Proof.
  unfold hex_fixed. rewrite seq_S, rev_app_distr. reflexivity.
Qed.

Lemma length_hex_fixed w n : length (hex_fixed w n) = w.
Proof.
  unfold hex_fixed. now rewrite length_map, length_rev, length_seq.
Qed.

Lemma hex_fixed_lower w n : forallb is_lower_hex (hex_fixed w n) = true.
Proof.
  induction w as [|w IH]; [reflexivity|].
  rewrite hex_fixed_S. cbn [forallb]. rewrite IH, hexdigit_lower_hex;
    [reflexivity|]. apply Z.mod_pos_bound. lia.
Qed.

Lemma length_to_bytes_be n v : length (to_bytes_be n v) = n.
Proof.
  unfold to_bytes_be. now rewrite length_map, length_rev, length_seq.
Qed.

Lemma to_bytes_be_bytes n v : forallb is_byte (to_bytes_be n v) = true.
Proof.
  unfold to_bytes_be. induction (rev (seq 0 n)) as [|i l IH];
    cbn [map forallb]; [reflexivity|].
  rewrite IH, andb_true_r. unfold is_byte.
  pose proof (Z.mod_pos_bound (v / 256 ^ Z.of_nat i) 256 eq_refl).
  apply andb_true_iff. rewrite Z.leb_le, Z.ltb_lt. lia.
Qed.

Lemma pack_I_be_Some v :
  0 <= v < 4294967296 <-> exists p, pack_I_be v = Some p.
Proof.
  unfold pack_I_be. split.
  - intros H. exists (to_bytes_be 4 v).
    destruct (Z.leb_spec 0 v), (Z.ltb_spec v 4294967296); cbn; (reflexivity || lia).
  - intros [p H].
    destruct (Z.leb_spec 0 v), (Z.ltb_spec v 4294967296); cbn in H;
      (discriminate || lia).
Qed.

Lemma pack_I_be_eq v p : pack_I_be v = Some p -> p = to_bytes_be 4 v.
Proof.
  unfold pack_I_be. destruct (_ && _); [|discriminate]. congruence.
Qed.

(** In the unsigned 32-bit range the eight-column format is exactly eight
    digits. *)
Lemma format_08x_u32 v : 0 <= v < 4294967296 -> format_08x v = hex_fixed 8 v.
Proof.
  intros H. unfold format_08x. destruct (Z.ltb_spec v 0); [lia|].
  replace (Nat.max 8 (hex_width v)) with 8%nat; [reflexivity|].
  unfold hex_width. destruct (Z.eqb_spec v 0); [reflexivity|].
  assert (Z.log2 v < 32) by (apply Z.log2_lt_pow2; [lia|]; change (2 ^ 32) with 4294967296; lia).
  pose proof (Z.log2_nonneg v).
  assert (Z.log2 v / 4 + 1 <= 8) by divmod_lia. lia.
Qed.

Lemma fold_hex_shift l acc :
  fold_left (fun a c => 16 * a + default 0 (hexval c)) l acc
  = acc * 16 ^ Z.of_nat (length l) + hex_value l.
Proof.
  unfold hex_value. revert acc.
  induction l as [|c l IH]; intros acc; cbn [fold_left length].
  - cbn. lia.
  - rewrite IH, (IH (16 * 0 + _)), Nat2Z.inj_succ, Z.pow_succ_r by lia. ring.
Qed.

Lemma hex_value_fixed w v : 0 <= v -> hex_value (hex_fixed w v) = v mod 16 ^ Z.of_nat w.
Proof.
  intros Hv. induction w as [|w IH].
  - cbn. now rewrite Z.mod_1_r.
  - rewrite hex_fixed_S. unfold hex_value. cbn [fold_left].
    rewrite fold_hex_shift, IH, length_hex_fixed, hexval_lower
      by (apply Z.mod_pos_bound; lia).
    cbn [default]. unfold id.
    replace (16 ^ Z.of_nat (S w)) with (16 ^ Z.of_nat w * 16)
      by (rewrite Nat2Z.inj_succ, Z.pow_succ_r; lia).
    rewrite Z.rem_mul_r by lia. ring.
Qed.

Lemma is_lower_hex_val c : is_lower_hex c = true -> exists d, hexval c = Some d.
Proof.
  unfold is_lower_hex, hexval. intros H.
  destruct (in_range 48 57 c); [eexists; reflexivity|]. cbn in H. rewrite H.
  eexists; reflexivity.
Qed.

Lemma is_lower_hex_plain c :
  is_lower_hex c = true ->
  to_ascii_numeral c = c /\ py_isspace c = false /\ c <> 43 /\ c <> 45
  /\ c <> 95 /\ c <> 120 /\ c <> 88.
Proof.
  unfold is_lower_hex, in_range, to_ascii_numeral, py_isspace, in_range.
  intros H. apply orb_true_iff in H as [H|H]; bool_hyps;
    (destruct (Z.ltb_spec c 127); [|lia]);
    (repeat split; try lia); cmp_cases; cbn; try reflexivity; lia.
Qed.

Lemma scan_hex acc n l :
  forallb is_lower_hex l = true ->
  scan_digits false acc n l
  = Some (fold_left (fun a c => 16 * a + default 0 (hexval c)) l acc,
          (n + length l)%nat, []).
Proof.
  revert acc n. induction l as [|c l IH]; intros acc n H;
    cbn [scan_digits fold_left length forallb] in *.
  - now rewrite Nat.add_0_r.
  - apply andb_true_iff in H as [Hc Hl].
    destruct (is_lower_hex_plain _ Hc) as (_ & _ & _ & _ & Hu & _).
    destruct (is_lower_hex_val _ Hc) as [d Hd].
    destruct (Z.eqb_spec c 95); [contradiction|].
    rewrite Hd, (IH _ _ Hl). cbn [default]. do 3 f_equal. lia.
Qed.

(** A non-empty text of lower-case hexadecimal digits reads as its value. *)
Lemma int16_lower_hex l :
  l <> [] -> forallb is_lower_hex l = true -> int16 l = Some (hex_value l).
Proof.
  intros Hne Hl. unfold int16.
  assert (Hmap : map to_ascii_numeral l = l).
  { clear Hne. induction l as [|c l IH]; [reflexivity|]. cbn [forallb map] in *.
    apply andb_true_iff in Hl as [Hc Hl].
    destruct (is_lower_hex_plain _ Hc) as (-> & _). now rewrite IH. }
  rewrite Hmap. destruct l as [|c l]; [contradiction|].
  pose proof Hl as Hl'. cbn [forallb] in Hl'.
  apply andb_true_iff in Hl' as [Hc Hrest].
  destruct (is_lower_hex_plain _ Hc) as (_ & Hsp & Hplus & Hminus & Hus & _).
  cbn [skip_space]. rewrite Hsp. unfold strip_sign.
  destruct (Z.eqb_spec c 43); [contradiction|].
  destruct (Z.eqb_spec c 45); [contradiction|].
  assert (H0x : strip_0x (c :: l) = c :: l).
  { unfold strip_0x. destruct l as [|x l]; [reflexivity|].
    cbn [forallb] in Hrest. apply andb_true_iff in Hrest as [Hx _].
    destruct (is_lower_hex_plain _ Hx) as (_ & _ & _ & _ & _ & Hx1 & Hx2).
    destruct (Z.eqb_spec x 120); [contradiction|].
    destruct (Z.eqb_spec x 88); [contradiction|].
    now rewrite andb_false_r. }
  rewrite H0x. destruct (Z.eqb_spec c 95); [contradiction|].
  rewrite (scan_hex _ _ _ Hl). cbn [length Nat.add Nat.eqb skip_space].
  reflexivity.
Qed.

Lemma int16_hex_fixed v : 0 <= v < 4294967296 -> int16 (hex_fixed 8 v) = Some v.
Proof.
  intros H. rewrite int16_lower_hex.
  - rewrite hex_value_fixed by lia. f_equal. apply Z.mod_small.
    change (16 ^ Z.of_nat 8) with 4294967296. lia.
  - intros E. apply (f_equal (@length Z)) in E.
    rewrite length_hex_fixed in E. discriminate.
  - apply hex_fixed_lower.
Qed.

(** ** Running the methods *)

Lemma sha512_ok : alg_ok sha512.
Proof.
  intros m. cbn [sha512 hash_fn digest_size]. unfold Sha512.sha512.
  destruct (fold_left _ _ _) as [[[[[[[a b] c] d] e] f] g] h].
  cbn [Sha512.output map concat]. split.
  - rewrite !length_app, !length_to_bytes_be. reflexivity.
  - rewrite !forallb_app, !to_bytes_be_bytes. reflexivity.
Qed.

(** Each method, step by step, when the factory's hash object is [o]. *)
Ltac monad_unfold := unfold lift; unfold mbind, M_bind, mret, M_ret, raise.

Lemma lookup_old {A} (l ext : list A) (i : nat) (x : A) :
  l !! i = Some x -> (l ++ ext) !! i = Some x.
Proof. intros H. rewrite lookup_app, H. reflexivity. Qed.

Lemma lookup_new {A} (l ext : list A) (i : nat) :
  (l ++ ext) !! (length l + i)%nat = ext !! i.
Proof.
  rewrite lookup_app_r by lia. f_equal. lia.
Qed.

Lemma _hexdigest_run self st o data0 data1 :
  heap st !! _hash self = Some o ->
  _hexdigest self data0 data1 st
  = (Ok (hexmac (_secret self) o data0 data1),
     extend (scratch (_secret self) o data0 data1) st).
Proof.
  intros Ho. unfold _hexdigest, hash_hexdigest. monad_unfold.
  unfold hash_copy at 1. rewrite Ho.
  unfold hash_update at 1. cbn [heap set_heap clock].
  rewrite <- (Nat.add_0_r (length (heap st))), lookup_new.
  cbn [lookup list_lookup]. cbn [heap set_heap clock].
  rewrite insert_app_r. cbn [insert list_insert].
  unfold hash_copy. cbn [heap set_heap clock].
  rewrite (lookup_old _ _ _ _ Ho). cbn [heap set_heap clock].
  unfold hash_digest at 1. cbn [heap set_heap clock].
  rewrite <- app_assoc. cbn [app].
  rewrite lookup_new. cbn [lookup list_lookup].
  unfold hash_update. cbn [heap set_heap clock algorithm fed].
  rewrite length_app. cbn [length].
  rewrite lookup_new. cbn [lookup list_lookup].
  rewrite insert_app_r. cbn [insert list_insert heap set_heap clock].
  unfold hash_digest. cbn [heap set_heap clock].
  rewrite lookup_new. cbn [lookup list_lookup algorithm fed].
  reflexivity.
Qed.

(** [new], step by step, when the factory's hash object is [o]. *)
Lemma new_run self st o uid toks ud vu ip enc :
  heap st !! _hash self = Some o ->
  new self uid toks ud vu ip enc st
  = match prepare uid (default [] toks) (default [] ud) (expiry vu st)
            (default _DEFAULT_IP ip) enc with
    | Raise e => (Raise e, st)
    | Ok p =>
        (Ok (ticket_text (_secret self) o (expiry vu st) p),
         extend (scratch (_secret self) o (p_data0 p) (p_data1 p)) st)
    end.
Proof.
  intros Ho. unfold new, prepare, ticket_text.
  assert (Hnil : mapM quote [] = Some []) by reflexivity.
  destruct vu as [v|]; cbn [expiry];
    (destruct toks as [[|t ts]|]; cbn [default id]; rewrite ?Hnil);
    (destruct ud as [[|c d]|]; cbn [default id]; rewrite ?quote_nil);
    monad_unfold; unfold time_time;
    (destruct (quote uid) as [qid|]; [|reflexivity]);
    try (destruct (mapM quote (t :: ts)) as [qs|]; [|reflexivity]);
    try (destruct (quote (c :: d)) as [qud|]; [|reflexivity]);
    (destruct (pack_I_be _) as [p|]; [|reflexivity]);
    (destruct (enc _) as [d1|]; [|reflexivity]);
    rewrite (_hexdigest_run _ _ _ _ _ Ho); reflexivity.
Qed.

(** The stored object is still there after an allocation. *)
Lemma extend_lookup ext st l o :
  heap st !! l = Some o -> heap (extend ext st) !! l = Some o.
Proof. intros H. cbn. now apply lookup_old. Qed.

Lemma clock_extend ext st : clock (extend ext st) = clock st.
Proof. reflexivity. Qed.

Lemma parse_run self st o ticket :
  heap st !! _hash self = Some o ->
  parse self ticket st = (parse_text (digest_size (algorithm o)) ticket, st).
Proof.
  intros Ho. unfold parse, parse_text, _min_ticket_size, hash_digest_size.
  monad_unfold. rewrite Ho.
  destruct (_ <? _)%nat; [reflexivity|]. rewrite Ho.
  destruct (int16 _) as [time|]; [|reflexivity].
  destruct (split _ _) as [|p0 [|p1 [|p2 [|p3 ps]]]]; reflexivity.
Qed.

(** [validate], step by step. *)
Lemma validate_run self st o ticket ip now enc :
  heap st !! _hash self = Some o ->
  validate self ticket ip now enc st
  = match parse_text (digest_size (algorithm o)) ticket with
    | Raise e => (Raise e, st)
    | Ok parts =>
        match new self (user_id parts) (Some (tokens parts))
                (Some (user_data parts)) (Some (valid_until parts)) ip enc st with
        | (Raise e, st') => (Raise e, st')
        | (Ok new_ticket, st') =>
            if negb (str_eqb (slice_to (digest_size (algorithm o) * 2) new_ticket)
                       (digest parts))
            then (Raise (Ticket (TicketDigestError ticket)), st')
            else if valid_until parts <=? default (clock st) now
            then (Raise (Ticket (TicketExpired ticket)), st')
            else (Ok parts, st')
        end
    end.
Proof.
  intros Ho. unfold validate. monad_unfold.
  rewrite (parse_run _ _ _ _ Ho).
  destruct (parse_text _ _) as [parts|e]; [|reflexivity].
  rewrite (new_run _ _ _ _ _ _ _ _ _ Ho).
  destruct (prepare _ _ _ _ _ _) as [p|e]; [|reflexivity].
  unfold hash_digest_size. rewrite (extend_lookup _ _ _ _ Ho).
  destruct (negb _); [reflexivity|].
  destruct now as [t|]; cbn [default]; [|unfold time_time; rewrite clock_extend];
    destruct (_ <=? _); reflexivity.
Qed.

(** The constructor allocates the hash object, empty, and keeps the secret. *)
Lemma __init___run secret hashalg st :
  exists self st',
    __init__ secret hashalg st = (Ok self, st')
    /\ _secret self = secret
    /\ heap st' !! _hash self = Some {| algorithm := hashalg; fed := [] |}
    /\ st' = extend [ {| algorithm := hashalg; fed := [] |} ] st.
Proof.
  exists {| _secret := secret; _hash := length (heap st) |},
    (extend [ {| algorithm := hashalg; fed := [] |} ] st).
  repeat split. cbn. now apply list_lookup_middle.
Qed.

(** ** What [new] builds *)

Lemma prepare_Ok uid toks ud v ip enc p :
  prepare uid toks ud v ip enc = Ok p ->
  exists qid qs qud d1,
    quote uid = Some qid /\ mapM quote toks = Some qs /\ quote ud = Some qud
    /\ 0 <= v < 4294967296
    /\ enc (join [0] [qid; join [ord ","] qs; qud]) = Some d1
    /\ p = {| p_user_id := qid; p_token_str := join [ord ","] qs;
              p_user_str := qud;
              p_data0 := ([version ip] ++ packed ip) ++ to_bytes_be 4 v;
              p_data1 := d1 |}.
Proof.
  unfold prepare. intros H.
  destruct (quote uid) as [qid|]; [|discriminate].
  destruct (mapM quote toks) as [qs|]; [|discriminate].
  destruct (quote ud) as [qud|]; [|discriminate].
  destruct (pack_I_be v) as [pk|] eqn:Hp; [|discriminate].
  destruct (enc _) as [d1|] eqn:He; [|discriminate].
  injection H as <-. exists qid, qs, qud, d1.
  rewrite (pack_I_be_eq _ _ Hp).
  repeat split; try reflexivity; try assumption;
    apply pack_I_be_Some; eauto.
Qed.

Lemma mem_join c sep (qs : list str) :
  c <> sep -> forallb (fun q => negb (mem c q)) qs = true ->
  mem c (join [sep] qs) = false.
Proof.
  intros Hc. induction qs as [|q qs IH]; cbn [forallb]; [reflexivity|].
  intros H. apply andb_true_iff in H as [Hq Hqs]. apply negb_true_iff in Hq.
  destruct qs as [|q' qs]; [exact Hq|].
  rewrite join_cons2, mem_app, Hq. cbn [mem existsb orb].
  fold (mem c (join [sep] (q' :: qs))). rewrite (IH Hqs), orb_false_r.
  now apply Z.eqb_neq.
Qed.

Lemma pchars_no_delims (qs : list str) c :
  c = 33 \/ c = 44 \/ c = 0 ->
  forallb (forallb is_pchar) qs = true ->
  forallb (fun q => negb (mem c q)) qs = true.
Proof.
  intros Hc. induction qs as [|q qs IH]; cbn [forallb]; [reflexivity|].
  intros H. apply andb_true_iff in H as [Hq Hqs].
  now rewrite (pchars_no_delim _ _ Hc Hq), (IH Hqs).
Qed.

(** The token field reads back as the tokens, except for the single empty
    token, which is written as the empty field. *)
Lemma tokens_roundtrip (toks qs : list str) :
  mapM quote toks = Some qs -> toks <> [[]] ->
  match join [ord ","] qs with
  | [] => []
  | _ :: _ => map unquote (split (ord ",") (join [ord ","] qs))
  end = toks.
Proof.
  intros Hq Hne.
  pose proof (mapM_quote_unquote _ _ Hq) as Hun.
  pose proof (pchars_no_delims _ 44 (or_intror (or_introl eq_refl))
                (mapM_quote_chars _ _ Hq)) as Hcomma.
  destruct qs as [|q qs].
  - cbn in *. congruence.
  - change (ord ",") with 44. rewrite (split_join _ _ _ Hcomma), Hun.
    destruct (join [44] (q :: qs)) as [|c r] eqn:Hj; [|reflexivity].
    exfalso. destruct qs as [|q' qs].
    + cbn in Hj. subst q. apply length_mapM in Hq as Hlen.
      destruct toks as [|t [|t' ts]]; try discriminate Hlen.
      cbn in Hq. destruct (quote t) as [qt|] eqn:Ht; [|discriminate].
      cbn in Hq. injection Hq as ->. apply quote_nil_inv in Ht.
      subst t. now apply Hne.
    + rewrite join_cons2 in Hj. destruct q; discriminate.
Qed.

Lemma ticket_text_eq secret o v p :
  ticket_text secret o v p
  = hexmac secret o (p_data0 p) (p_data1 p)
    ++ format_08x v
    ++ p_user_id p ++ ord "!" :: p_token_str p ++ ord "!" :: p_user_str p.
Proof.
  unfold ticket_text. rewrite join3. now rewrite <- !app_assoc.
Qed.

Lemma length_hexmac secret o d0 d1 :
  alg_ok (algorithm o) ->
  length (hexmac secret o d0 d1) = (digest_size (algorithm o) * 2)%nat.
Proof.
  intros Hok. unfold hexmac. rewrite length_hexlify.
  now rewrite (proj1 (Hok _)).
Qed.

(** The three slices [parse] takes of a text laid out as a ticket. *)
Lemma ticket_slices (d t rest : str) (n : nat) :
  length d = n -> length t = 8%nat ->
  (length (d ++ t ++ rest) <? n + 8)%nat = false
  /\ slice_to n (d ++ t ++ rest) = d
  /\ slice n (n + 8) (d ++ t ++ rest) = t
  /\ slice_from (n + 8) (d ++ t ++ rest) = rest.
Proof.
  intros Hd Ht. unfold slice_to, slice, slice_from. repeat split.
  - apply Nat.ltb_ge. rewrite !length_app. lia.
  - now apply take_app_length'.
  - rewrite drop_app_length' by congruence.
    replace (n + 8 - n)%nat with 8%nat by lia. now apply take_app_length'.
  - rewrite app_assoc. apply drop_app_length'. rewrite length_app. lia.
Qed.

(** Parsing what [new] wrote. *)
Lemma parse_ticket_text secret o uid toks ud v ip enc p :
  alg_ok (algorithm o) ->
  prepare uid toks ud v ip enc = Ok p ->
  toks <> [[]] ->
  parse_text (digest_size (algorithm o)) (ticket_text secret o v p)
  = Ok {| digest := hexmac secret o (p_data0 p) (p_data1 p);
          user_id := uid; tokens := toks; user_data := ud; valid_until := v |}.
Proof.
  intros Hok Hp Hne.
  destruct (prepare_Ok _ _ _ _ _ _ _ Hp)
    as (qid & qs & qud & d1 & Hqid & Hqs & Hqud & Hv & _ & ->).
  rewrite ticket_text_eq. cbn [p_user_id p_token_str p_user_str p_data0 p_data1].
  rewrite (format_08x_u32 _ Hv).
  destruct (ticket_slices
              (hexmac secret o (([version ip] ++ packed ip) ++ to_bytes_be 4 v) d1)
              (hex_fixed 8 v)
              (qid ++ ord "!" :: join [ord ","] qs ++ ord "!" :: qud)
              (digest_size (algorithm o) * 2)
              (length_hexmac _ _ _ _ Hok) (length_hex_fixed _ _))
    as (Hlen & Hd & Ht & Hrest).
  unfold parse_text. rewrite Hlen, Hd, Ht, Hrest, (int16_hex_fixed _ Hv).
  pose proof (quote_chars _ _ Hqid) as Cid.
  pose proof (quote_chars _ _ Hqud) as Cud.
  pose proof (mapM_quote_chars _ _ Hqs) as Cqs.
  change (ord "!") with 33.
  rewrite split_app by (apply pchars_no_delim; [tauto|assumption]).
  rewrite split_app
    by (apply mem_join; [discriminate|apply pchars_no_delims; [tauto|assumption]]).
  rewrite split_no_sep by (apply pchars_no_delim; [tauto|assumption]).
  rewrite (unquote_quote _ _ Hqid), (unquote_quote _ _ Hqud).
  rewrite (tokens_roundtrip _ _ Hqs Hne). reflexivity.
Qed.

(** ** The concrete factory *)

Lemma demo_init :
  __init__ (lit "s3cret") sha512 demo_start = (Ok demo_factory, demo_state).
Proof. reflexivity. Qed.

(** ** Round trip *)

Lemma forallb_join (P : Z -> bool) sep (qs : list str) :
  forallb P sep = true -> forallb (forallb P) qs = true ->
  forallb P (join sep qs) = true.
Proof.
  intros Hsep. induction qs as [|q qs IH]; cbn [forallb]; [reflexivity|].
  intros H. apply andb_true_iff in H as [Hq Hqs].
  destruct qs as [|q' qs]; [exact Hq|].
  change (join sep (q :: q' :: qs)) with (q ++ sep ++ join sep (q' :: qs)).
  now rewrite !forallb_app, Hq, Hsep, (IH Hqs).
Qed.

Lemma ascii_scalar s : forallb is_ascii s = true -> forallb is_scalar s = true.
Proof.
  induction s as [|c s IH]; cbn [forallb]; [reflexivity|].
  intros H. apply andb_true_iff in H as [Hc Hs]. rewrite (IH Hs), andb_true_r.
  unfold is_ascii in Hc. unfold is_scalar, is_code_point, is_surrogate.
  bool_hyps. cmp_cases; cbn; try reflexivity; lia.
Qed.

(** The digested text is ASCII, so UTF-8 encodes it. *)
Lemma utf_8_payload (qid : str) (qs : list str) (qud : str) :
  forallb is_pchar qid = true -> forallb (forallb is_pchar) qs = true ->
  forallb is_pchar qud = true ->
  exists d1, utf_8 (join [0] [qid; join [ord ","] qs; qud]) = Some d1.
Proof.
  intros Hid Hqs Hud. apply utf8_encode_Some, ascii_scalar, forallb_join.
  - reflexivity.
  - cbn [forallb]. rewrite (pchars_ascii _ Hid), (pchars_ascii _ Hud).
    rewrite forallb_join; [reflexivity|reflexivity|].
    clear -Hqs. induction qs as [|q qs IH]; cbn [forallb] in *; [reflexivity|].
    apply andb_true_iff in Hqs as [Hq Hqs].
    now rewrite (pchars_ascii _ Hq), (IH Hqs).
Qed.

(** With texts free of surrogates and an expiry in range, [new] returns. *)
Lemma prepare_total (uid : str) (toks : list str) (ud : str) v ip :
  forallb is_scalar uid = true -> forallb (forallb is_scalar) toks = true ->
  forallb is_scalar ud = true -> 0 <= v < 4294967296 ->
  exists p, prepare uid toks ud v ip utf_8 = Ok p.
Proof.
  intros Huid Htoks Hud Hv.
  apply quote_Some in Huid as [qid Hqid].
  apply mapM_quote_Some in Htoks as [qs Hqs].
  apply quote_Some in Hud as [qud Hqud].
  apply pack_I_be_Some in Hv as [pk Hpk].
  destruct (utf_8_payload qid qs qud (quote_chars _ _ Hqid)
              (mapM_quote_chars _ _ Hqs) (quote_chars _ _ Hqud)) as [d1 Hd1].
  eexists. unfold prepare. rewrite Hqid, Hqs, Hqud, Hpk, Hd1. reflexivity.
Qed.

(** C1, as the code has it.  For texts the strict UTF-8 codec can encode, an
    expiry in the unsigned 32-bit range and any token sequence other than the
    single empty token, [new] returns a ticket and [parse] reads back from it
    exactly the user id, the tokens, the user data and the expiry. *)
Theorem new_parse_roundtrip self st o uid (toks : list str) ud vu ip :
  heap st !! _hash self = Some o ->
  alg_ok (algorithm o) ->
  forallb is_scalar uid = true ->
  forallb (forallb is_scalar) toks = true ->
  forallb is_scalar ud = true ->
  toks <> [[]] ->
  0 <= vu < 4294967296 ->
  (exists t st',
      new self uid (Some toks) (Some ud) (Some vu) ip utf_8 st = (Ok t, st'))
  /\ (forall enc t st',
         new self uid (Some toks) (Some ud) (Some vu) ip enc st = (Ok t, st') ->
         exists d,
           parse self t st'
           = (Ok {| digest := d; user_id := uid; tokens := toks;
                    user_data := ud; valid_until := vu |}, st')).
Proof.
  intros Ho Hok Huid Htoks Hud Hne Hvu. split.
  - destruct (prepare_total uid toks ud vu (default _DEFAULT_IP ip)
                Huid Htoks Hud Hvu) as [p Hp].
    rewrite (new_run _ _ _ _ _ _ _ _ _ Ho). cbn [default id expiry].
    rewrite Hp. eauto.
  - intros enc t st'. rewrite (new_run _ _ _ _ _ _ _ _ _ Ho).
    cbn [default id expiry].
    destruct (prepare _ _ _ _ _ _) as [p|e] eqn:Hp; [|discriminate].
    intros H. injection H as <- <-.
    rewrite (parse_run _ _ _ _ (extend_lookup _ _ _ _ Ho)).
    rewrite (parse_ticket_text _ _ _ _ _ _ _ _ _ Hok Hp Hne). eauto.
Qed.

Lemma new_parse_roundtrip_witness :
  exists t st' d,
    new demo_factory (lit "alice") (Some [lit "admin"; lit "a,b!"])
      (Some (lit "50% off")) (Some 1000000000) None utf_8 demo_state
    = (Ok t, st')
    /\ parse demo_factory t st'
       = (Ok {| digest := d; user_id := lit "alice";
                tokens := [lit "admin"; lit "a,b!"];
                user_data := lit "50% off";
                valid_until := 1000000000 |}, st').
Proof.
  destruct (new_parse_roundtrip demo_factory demo_state demo_hash
              (lit "alice") [lit "admin"; lit "a,b!"] (lit "50% off")
              1000000000 None eq_refl sha512_ok eq_refl eq_refl eq_refl
              ltac:(discriminate) ltac:(lia))
    as [(t & st' & Hnew) Hparse].
  destruct (Hparse utf_8 t st' Hnew) as [d Hd].
  exists t, st', d. exact (conj Hnew Hd).
Defined.

(** The single empty token is written as the empty token field, which reads
    back as no token at all. *)
Lemma prepare_single_empty uid ud v ip enc :
  prepare uid [[]] ud v ip enc = prepare uid [] ud v ip enc.
Proof. unfold prepare. destruct (quote uid); reflexivity. Qed.

Lemma roundtrip_single_empty_token_lost :
  exists t st' info,
    new demo_factory (lit "alice") (Some [[]]) (Some []) (Some 1000000000)
      None utf_8 demo_state = (Ok t, st')
    /\ parse demo_factory t st' = (Ok info, st')
    /\ tokens info = []
    /\ tokens info <> [[]].
Proof.
  destruct (prepare_total (lit "alice") [] [] 1000000000 _DEFAULT_IP
              eq_refl eq_refl eq_refl ltac:(lia)) as [p Hp].
  exists (ticket_text (lit "s3cret") demo_hash 1000000000 p),
    (extend (scratch (lit "s3cret") demo_hash (p_data0 p) (p_data1 p)) demo_state),
    {| digest := hexmac (lit "s3cret") demo_hash (p_data0 p) (p_data1 p);
       user_id := lit "alice"; tokens := []; user_data := [];
       valid_until := 1000000000 |}.
  split.
  - rewrite (new_run demo_factory demo_state demo_hash) by reflexivity.
    cbn [default id expiry]. rewrite prepare_single_empty, Hp. reflexivity.
  - split; [|split; [reflexivity|discriminate]].
    rewrite (parse_run demo_factory _ demo_hash) by reflexivity.
    cbn [algorithm demo_hash].
    now rewrite (parse_ticket_text _ demo_hash _ _ _ _ _ _ _ sha512_ok Hp).
Qed.

(** ** Digest construction *)

Lemma new_Ok self st o uid toks ud vu ip enc t st' :
  heap st !! _hash self = Some o ->
  new self uid toks ud vu ip enc st = (Ok t, st') ->
  exists p,
    prepare uid (default [] toks) (default [] ud) (expiry vu st)
      (default _DEFAULT_IP ip) enc = Ok p
    /\ t = ticket_text (_secret self) o (expiry vu st) p
    /\ st' = extend (scratch (_secret self) o (p_data0 p) (p_data1 p)) st.
Proof.
  intros Ho. rewrite (new_run _ _ _ _ _ _ _ _ _ Ho).
  destruct (prepare _ _ _ _ _ _) as [p|e]; [|discriminate].
  intros H. injection H as <- <-. eauto.
Qed.

Lemma digest_prefix secret o v p :
  alg_ok (algorithm o) ->
  slice_to (digest_size (algorithm o) * 2) (ticket_text secret o v p)
  = hexmac secret o (p_data0 p) (p_data1 p).
Proof.
  intros Hok. rewrite ticket_text_eq. unfold slice_to.
  apply take_app_length'. symmetry. now apply length_hexmac.
Qed.

Lemma packed_length a :
  version a = 4 /\ length (packed a) = 4%nat
  \/ version a = 6 /\ length (packed a) = 16%nat.
Proof.
  destruct a; cbn [version packed]; rewrite length_to_bytes_be; auto.
Qed.

(** C2.  Whenever [new] returns a ticket, its first [2 * digest_size]
    characters are the hexadecimal text of
    [H (H (data0 ++ secret ++ data1) ++ secret)], where [data0] is the
    address version (4 or 6), the packed address (4 or 16 bytes) and the
    expiry on four big-endian bytes, and [data1] encodes the quoted user id,
    a NUL, the comma-joined quoted tokens, a NUL and the quoted user data.
    Both digests are computed in objects copied from the stored one, which
    are appended to the store; the stored one is left as it was. *)
Theorem new_digest_construction self st o uid toks ud vu ip enc t st' :
  heap st !! _hash self = Some o ->
  fed o = [] ->
  alg_ok (algorithm o) ->
  new self uid toks ud vu ip enc st = (Ok t, st') ->
  let H := hash_fn (algorithm o) in
  let secret := _secret self in
  let addr := default _DEFAULT_IP ip in
  let data0 := [version addr] ++ packed addr ++ to_bytes_be 4 (expiry vu st) in
  exists (qid : str) (qs : list str) (qud : str) (data1 : bytes),
    quote uid = Some qid
    /\ mapM quote (default [] toks) = Some qs
    /\ quote (default [] ud) = Some qud
    /\ enc (qid ++ [0] ++ join [ord ","] qs ++ [0] ++ qud) = Some data1
    /\ (version addr = 4 /\ length (packed addr) = 4%nat
        \/ version addr = 6 /\ length (packed addr) = 16%nat)
    /\ slice_to (digest_size (algorithm o) * 2) t
       = hexlify (H (H (data0 ++ secret ++ data1) ++ secret))
    /\ heap st'
       = heap st
         ++ [ {| algorithm := algorithm o; fed := data0 ++ secret ++ data1 |};
              {| algorithm := algorithm o;
                 fed := H (data0 ++ secret ++ data1) ++ secret |} ]
    /\ heap st' !! _hash self = Some o.
Proof.
  intros Ho Hfed Hok Hnew. cbv zeta.
  destruct (new_Ok _ _ _ _ _ _ _ _ _ _ _ Ho Hnew) as (p & Hp & -> & ->).
  destruct (prepare_Ok _ _ _ _ _ _ _ Hp)
    as (qid & qs & qud & d1 & Hqid & Hqs & Hqud & Hv & Hd1 & ->).
  exists qid, qs, qud, d1.
  repeat split; try assumption.
  - apply packed_length.
  - rewrite (digest_prefix _ _ _ _ Hok). unfold hexmac, fed1, fed0.
    cbn [p_data0 p_data1]. rewrite Hfed. cbn [app].
    now rewrite <- !app_assoc.
  - cbn [heap extend set_heap]. unfold scratch, fed1, fed0.
    cbn [p_data0 p_data1]. rewrite Hfed. cbn [app].
    now rewrite <- !app_assoc.
  - now apply extend_lookup.
Qed.

Lemma new_digest_construction_witness :
  exists t st',
    new demo_factory (lit "alice") (Some [lit "admin"]) None (Some 1000000000)
      (Some (IPv4Address 167772161)) utf_8 demo_state = (Ok t, st')
    /\ exists (qid : str) (qs : list str) (qud : str) (data1 : bytes),
        quote (lit "alice") = Some qid
        /\ mapM quote [lit "admin"] = Some qs
        /\ quote [] = Some qud
        /\ utf_8 (qid ++ [0] ++ join [ord ","] qs ++ [0] ++ qud) = Some data1
        /\ slice_to 128 t
           = hexlify
               (Sha512.sha512
                  (Sha512.sha512
                     (([4] ++ [10; 0; 0; 1] ++ to_bytes_be 4 1000000000)
                      ++ lit "s3cret" ++ data1)
                   ++ lit "s3cret")).
Proof.
  destruct (prepare_total (lit "alice") [lit "admin"] [] 1000000000
              (IPv4Address 167772161) eq_refl eq_refl eq_refl ltac:(lia))
    as [p Hp].
  assert (Hnew :
    new demo_factory (lit "alice") (Some [lit "admin"]) None (Some 1000000000)
      (Some (IPv4Address 167772161)) utf_8 demo_state
    = (Ok (ticket_text (lit "s3cret") demo_hash 1000000000 p),
       extend (scratch (lit "s3cret") demo_hash (p_data0 p) (p_data1 p))
         demo_state)).
  { rewrite (new_run demo_factory demo_state demo_hash) by reflexivity.
    cbn [default id expiry]. now rewrite Hp. }
  eexists _, _. split; [exact Hnew|].
  destruct (new_digest_construction demo_factory demo_state demo_hash _ _ _ _ _ _ _ _
              eq_refl eq_refl sha512_ok Hnew)
    as (qid & qs & qud & d1 & H1 & H2 & H3 & H4 & _ & H6 & _).
  exists qid, qs, qud, d1.
  exact (conj H1 (conj H2 (conj H3 (conj H4 H6)))).
Defined.

(** ** Validation *)

Lemma str_eqb_refl a : str_eqb a a = true.
Proof. now apply str_eqb_eq. Qed.

Lemma str_eqb_neq a b : a <> b -> str_eqb a b = false.
Proof.
  intros H. destruct (str_eqb a b) eqn:E; [|reflexivity].
  now apply str_eqb_eq in E.
Qed.

Lemma parse_same_state self ticket st r st' :
  parse self ticket st = (r, st') -> st' = st.
Proof.
  destruct (heap st !! _hash self) as [o|] eqn:Ho.
  - rewrite (parse_run _ _ _ _ Ho). now intros [= _ <-].
  - unfold parse, _min_ticket_size, hash_digest_size. monad_unfold.
    rewrite Ho. now intros [= _ <-].
Qed.

(** C3.  [validate] parses first and hands on any parse error; it then
    rebuilds the ticket from the parsed user id, tokens, user data and expiry
    with the given address, and when the first [2 * digest_size] characters
    of the rebuilt ticket differ from the parsed digest it raises
    [TicketDigestError], whatever the time is; when it returns, it returns
    what [parse] returned. *)
Theorem validate_check_order self st o ticket ip now enc :
  heap st !! _hash self = Some o ->
  (forall e st1,
      parse self ticket st = (Raise e, st1) ->
      validate self ticket ip now enc st = (Raise e, st1))
  /\ (forall parts st1 new_ticket st2,
         parse self ticket st = (Ok parts, st1) ->
         new self (user_id parts) (Some (tokens parts)) (Some (user_data parts))
           (Some (valid_until parts)) ip enc st1 = (Ok new_ticket, st2) ->
         slice_to (digest_size (algorithm o) * 2) new_ticket <> digest parts ->
         validate self ticket ip now enc st
         = (Raise (Ticket (TicketDigestError ticket)), st2))
  /\ (forall parts st',
         validate self ticket ip now enc st = (Ok parts, st') ->
         parse self ticket st = (Ok parts, st)
         /\ exists new_ticket,
             new self (user_id parts) (Some (tokens parts))
               (Some (user_data parts)) (Some (valid_until parts)) ip enc st
             = (Ok new_ticket, st')
             /\ slice_to (digest_size (algorithm o) * 2) new_ticket
                = digest parts).
Proof.
  intros Ho. rewrite (validate_run _ _ _ _ _ _ _ Ho), (parse_run _ _ _ _ Ho).
  split; [|split].
  - intros e st1 Hp. injection Hp as -> <-. reflexivity.
  - intros parts st1 nt st2 Hp Hnew Hd. injection Hp as -> <-.
    rewrite Hnew, (str_eqb_neq _ _ Hd). reflexivity.
  - intros parts st'.
    destruct (parse_text _ _) as [parts'|e]; [|discriminate].
    destruct (new _ _ _ _ _ _ _ _) as [[nt|e] st2] eqn:Hnew; [|discriminate].
    destruct (negb _) eqn:Hd; [discriminate|].
    destruct (_ <=? _); [discriminate|]. intros Hv. injection Hv as <- <-.
    split; [reflexivity|]. exists nt. split; [exact Hnew|].
    apply negb_false_iff in Hd. now apply str_eqb_eq.
Qed.

(** On the forged, long expired ticket the digest error comes first. *)
Lemma validate_check_order_witness :
  validate demo_factory forged_ticket None (Some 1000000000) utf_8 demo_state
  = (Raise (Ticket (TicketDigestError forged_ticket)),
     extend (scratch (lit "s3cret") demo_hash (p_data0 forged_pieces)
               (p_data1 forged_pieces)) demo_state).
Proof.
  apply (proj1 (proj2 (validate_check_order demo_factory demo_state demo_hash
                         forged_ticket None (Some 1000000000) utf_8 eq_refl))
           forged_parts demo_state
           (ticket_text (lit "s3cret") demo_hash 1 forged_pieces)).
  - rewrite (parse_run demo_factory _ demo_hash) by reflexivity.
    f_equal.
  - rewrite (new_run demo_factory demo_state demo_hash) by reflexivity.
    reflexivity.
  - vm_compute. discriminate.
Defined.

(** C4.  For a ticket that parses and whose digest matches, [validate]
    raises [TicketExpired] exactly when the parsed expiry is at or before the
    time of the check (the [now] argument, or the clock), and returns the
    parsed fields otherwise; an expiry equal to the time is rejected, one
    second later is accepted. *)
Theorem validate_expiry_boundary self st o ticket ip now enc
    parts st1 new_ticket st2 :
  heap st !! _hash self = Some o ->
  parse self ticket st = (Ok parts, st1) ->
  new self (user_id parts) (Some (tokens parts)) (Some (user_data parts))
    (Some (valid_until parts)) ip enc st1 = (Ok new_ticket, st2) ->
  slice_to (digest_size (algorithm o) * 2) new_ticket = digest parts ->
  let t := default (clock st) now in
  (validate self ticket ip now enc st = (Raise (Ticket (TicketExpired ticket)), st2)
   <-> valid_until parts <= t)
  /\ (validate self ticket ip now enc st = (Ok parts, st2)
      <-> t < valid_until parts)
  /\ (valid_until parts = t ->
      validate self ticket ip now enc st
      = (Raise (Ticket (TicketExpired ticket)), st2))
  /\ (valid_until parts = t + 1 ->
      validate self ticket ip now enc st = (Ok parts, st2)).
Proof.
  intros Ho Hparse Hnew Hd t.
  rewrite (validate_run _ _ _ _ _ _ _ Ho).
  rewrite (parse_run _ _ _ _ Ho) in Hparse. injection Hparse as -> <-.
  rewrite Hnew, Hd, str_eqb_refl. cbn [negb]. fold t.
  destruct (Z.leb_spec (valid_until parts) t).
  - repeat split; try (intros; reflexivity); try (intros; lia);
      try discriminate.
  - repeat split; try (intros; reflexivity); try (intros; lia);
      try discriminate.
Qed.

(** Validating what [new] issued, with the same address and encoding. *)
Lemma validate_issued self st o (uid : str) (toks : list str) (ud : str)
    v ip enc p now :
  heap st !! _hash self = Some o ->
  alg_ok (algorithm o) ->
  prepare uid toks ud v (default _DEFAULT_IP ip) enc = Ok p ->
  toks <> [[]] ->
  validate self (ticket_text (_secret self) o v p) ip now enc st
  = (if v <=? default (clock st) now
     then Raise (Ticket (TicketExpired (ticket_text (_secret self) o v p)))
     else Ok {| digest := hexmac (_secret self) o (p_data0 p) (p_data1 p);
                user_id := uid; tokens := toks; user_data := ud;
                valid_until := v |},
     extend (scratch (_secret self) o (p_data0 p) (p_data1 p)) st).
Proof.
  intros Ho Hok Hp Hne.
  rewrite (validate_run _ _ _ _ _ _ _ Ho).
  rewrite (parse_ticket_text _ _ _ _ _ _ _ _ _ Hok Hp Hne).
  cbn [user_id tokens user_data valid_until digest].
  rewrite (new_run _ _ _ _ _ _ _ _ _ Ho). cbn [default id expiry].
  rewrite Hp, (digest_prefix _ _ _ _ Hok), str_eqb_refl. cbn [negb].
  destruct (_ <=? _); reflexivity.
Qed.

Lemma alice_prepare :
  prepare (lit "alice") [] [] 1000000000 _DEFAULT_IP utf_8 = Ok alice_pieces.
Proof. vm_compute. reflexivity. Qed.

Lemma alice_ticket_text :
  ticket_text (lit "s3cret") demo_hash 1000000000 alice_pieces = alice_ticket.
Proof. vm_compute. reflexivity. Qed.

Lemma alice_new self st :
  _secret self = lit "s3cret" ->
  heap st !! _hash self = Some demo_hash ->
  new self (lit "alice") None None (Some 1000000000) None utf_8 st
  = (Ok alice_ticket,
     extend (scratch (lit "s3cret") demo_hash (p_data0 alice_pieces)
               (p_data1 alice_pieces)) st).
Proof.
  intros Hs Ho. rewrite (new_run _ _ _ _ _ _ _ _ _ Ho). cbn [default id expiry].
  now rewrite alice_prepare, Hs, alice_ticket_text.
Qed.

Lemma alice_validate self st now :
  _secret self = lit "s3cret" ->
  heap st !! _hash self = Some demo_hash ->
  validate self alice_ticket None (Some now) utf_8 st
  = (if 1000000000 <=? now
     then Raise (Ticket (TicketExpired alice_ticket))
     else Ok {| digest := slice_to 128 alice_ticket; user_id := lit "alice";
                tokens := []; user_data := []; valid_until := 1000000000 |},
     extend (scratch (lit "s3cret") demo_hash (p_data0 alice_pieces)
               (p_data1 alice_pieces)) st).
Proof.
  intros Hs Ho. rewrite <- alice_ticket_text at 1. rewrite <- Hs at 1.
  rewrite (validate_issued self st demo_hash (lit "alice") [] []
             1000000000 None utf_8 alice_pieces (Some now) Ho sha512_ok
             alice_prepare) by discriminate.
  assert (Hd : hexmac (lit "s3cret") demo_hash (p_data0 alice_pieces)
                 (p_data1 alice_pieces) = slice_to 128 alice_ticket).
  { rewrite <- alice_ticket_text.
    symmetry. apply (digest_prefix _ demo_hash _ _ sha512_ok). }
  rewrite Hs, alice_ticket_text, Hd. reflexivity.
Qed.

Lemma validate_expiry_boundary_witness :
  let parts := {| digest := slice_to 128 alice_ticket; user_id := lit "alice";
                  tokens := []; user_data := []; valid_until := 1000000000 |} in
  let st2 := extend (scratch (lit "s3cret") demo_hash (p_data0 alice_pieces)
                       (p_data1 alice_pieces)) demo_state in
  (validate demo_factory alice_ticket None (Some 1000000000) utf_8 demo_state
   = (Raise (Ticket (TicketExpired alice_ticket)), st2)
   <-> 1000000000 <= 1000000000)
  /\ (validate demo_factory alice_ticket None (Some 1000000000) utf_8 demo_state
      = (Ok parts, st2)
      <-> 1000000000 < 1000000000)
  /\ (1000000000 = 1000000000 ->
      validate demo_factory alice_ticket None (Some 1000000000) utf_8 demo_state
      = (Raise (Ticket (TicketExpired alice_ticket)), st2))
  /\ (1000000000 = 1000000000 + 1 ->
      validate demo_factory alice_ticket None (Some 1000000000) utf_8 demo_state
      = (Ok parts, st2)).
Proof.
  intros parts st2.
  apply (validate_expiry_boundary demo_factory demo_state demo_hash
           alice_ticket None (Some 1000000000) utf_8 parts demo_state
           alice_ticket st2).
  - reflexivity.
  - rewrite (parse_run demo_factory _ demo_hash) by reflexivity.
    f_equal.
  - apply (alice_new demo_factory demo_state); reflexivity.
  - reflexivity.
Defined.

(** C7.  Secret ["s3cret"], SHA-512, user ["alice"], no tokens, no user
    data, expiry 1000000000, no address: the factory issues the ticket
    [alice_ticket]; validating it at time 999999999 returns user ["alice"],
    no tokens, empty user data and expiry 1000000000; validating it at time
    1000000001 raises [TicketExpired]. *)
Theorem alice_scenario (st0 : state) :
  exists f st1 st2 st3 st4,
    __init__ (lit "s3cret") sha512 st0 = (Ok f, st1)
    /\ new f (lit "alice") None None (Some 1000000000) None utf_8 st1
       = (Ok alice_ticket, st2)
    /\ validate f alice_ticket None (Some 999999999) utf_8 st2
       = (Ok {| digest := slice_to 128 alice_ticket; user_id := lit "alice";
                tokens := []; user_data := []; valid_until := 1000000000 |},
          st3)
    /\ validate f alice_ticket None (Some 1000000001) utf_8 st2
       = (Raise (Ticket (TicketExpired alice_ticket)), st4).
Proof.
  set (f := {| _secret := lit "s3cret"; _hash := length (heap st0) |}).
  set (st1 := set_heap (heap st0 ++ [demo_hash]) st0).
  assert (Ho : heap st1 !! _hash f = Some demo_hash)
    by (apply list_lookup_middle; reflexivity).
  set (ext := scratch (lit "s3cret") demo_hash (p_data0 alice_pieces)
                (p_data1 alice_pieces)).
  assert (Ho2 : heap (extend ext st1) !! _hash f = Some demo_hash)
    by (now apply extend_lookup).
  exists f, st1, (extend ext st1), (extend ext (extend ext st1)),
    (extend ext (extend ext st1)).
  split; [reflexivity|]. split; [now apply alice_new|]. split.
  - now rewrite (alice_validate f _ 999999999 eq_refl Ho2).
  - now rewrite (alice_validate f _ 1000000001 eq_refl Ho2).
Qed.

(** ** Parse errors *)

(** [int(_, 16)] accepts more than unsigned numerals: here a sign. *)
Lemma parse_accepts_signed_time :
  is_hex_unsigned (slice 128 136 signed_ticket) = false
  /\ parse demo_factory signed_ticket demo_state
     = (Ok {| digest := repeat 48 128; user_id := []; tokens := [];
              user_data := []; valid_until := -1 |}, demo_state).
Proof.
  split; [reflexivity|].
  rewrite (parse_run demo_factory _ demo_hash) by reflexivity.
  f_equal.
Qed.

(** C5, as the code has it.  [parse] raises [TicketParseError] exactly when
    the text is shorter than [2 * digest_size + 8], or [int(_, 16)] rejects
    the eight characters after the digest, or the rest does not split on
    ['!'] into three fields; the three checks are made in this order, each
    with its own message.  Otherwise [parse] returns the five fields.  It
    raises nothing else, leaves the store as it was and does not depend on
    the secret. *)
Theorem parse_error_cases self st o ticket :
  heap st !! _hash self = Some o ->
  let n := (digest_size (algorithm o) * 2)%nat in
  let short := (length ticket < n + 8)%nat in
  let bad_time := int16 (slice n (n + 8) ticket) = None in
  let bad_parts :=
    length (split (ord "!") (slice_from (n + 8) ticket)) <> 3%nat in
  ((exists msg,
       parse self ticket st = (Raise (Ticket (TicketParseError ticket msg)), st))
   <-> short \/ bad_time \/ bad_parts)
  /\ (short ->
      parse self ticket st
      = (Raise (Ticket (TicketParseError ticket (lit "Invalid ticket length"))),
         st))
  /\ (~ short -> bad_time ->
      parse self ticket st
      = (Raise (Ticket (TicketParseError ticket (lit "Invalid time field"))), st))
  /\ (~ short -> ~ bad_time -> bad_parts ->
      parse self ticket st
      = (Raise (Ticket (TicketParseError ticket (lit "Missing parts"))), st))
  /\ (~ (short \/ bad_time \/ bad_parts) ->
      exists info, parse self ticket st = (Ok info, st))
  /\ (forall e st',
         parse self ticket st = (Raise e, st') ->
         exists msg, e = Ticket (TicketParseError ticket msg))
  /\ (forall secret',
         parse {| _secret := secret'; _hash := _hash self |} ticket st
         = parse self ticket st).
Proof.
  intros Ho n short bad_time bad_parts.
  rewrite (parse_run _ _ _ _ Ho). unfold parse_text. fold n.
  subst short bad_time bad_parts.
  split; [|split; [|split; [|split; [|split; [|split; [|intros secret';
      exact (parse_run {| _secret := secret'; _hash := _hash self |} st o ticket Ho)]]]]]];
    (destruct (Nat.ltb_spec (length ticket) (n + 8)) as [Hlen|Hlen];
     [|destruct (int16 (slice n (n + 8) ticket)) as [time|] eqn:Ht;
       [destruct (split (ord "!") (slice_from (n + 8) ticket))
          as [|p0 [|p1 [|p2 [|p3 ps]]]] eqn:Hs; cbn [length]|]]);
    match goal with
    | |- _ <-> _ =>
        split;
        [ intros [msg Hm];
          first [ discriminate Hm
                | left; assumption
                | right; left; reflexivity
                | right; right; lia ]
        | intros Hc;
          first [ eexists; reflexivity
                | exfalso; destruct Hc as [Hc|[Hc|Hc]];
                  first [lia | discriminate Hc] ] ]
    | |- forall e st', _ = _ -> _ =>
        intros e st' He;
        first [discriminate He | injection He as <- _; eexists; reflexivity]
    | |- ~ (_ \/ _) -> _ =>
        intros Hn;
        first [ eexists; reflexivity
              | exfalso; apply Hn;
                first [ left; assumption
                      | right; left; reflexivity
                      | right; right; lia ] ]
    | |- _ =>
        intros;
        first [ reflexivity | exfalso; first [lia | congruence | tauto] ]
    end.
Qed.

Lemma parse_error_cases_witness :
  (exists msg,
      parse demo_factory (lit "too short") demo_state
      = (Raise (Ticket (TicketParseError (lit "too short") msg)), demo_state))
  /\ parse demo_factory (lit "too short") demo_state
     = (Raise (Ticket (TicketParseError (lit "too short")
                         (lit "Invalid ticket length"))), demo_state).
Proof.
  pose proof (parse_error_cases demo_factory demo_state demo_hash
                (lit "too short") eq_refl) as (H1 & H2 & _).
  cbv zeta in H1, H2. cbn [demo_hash algorithm sha512 digest_size] in H1, H2.
  assert (Hshort : (length (lit "too short") < 64 * 2 + 8)%nat)
    by (cbn; lia).
  split; [apply H1; now left|now apply H2].
Defined.

(** ** Serialization *)

(** C6.  With the expiry in the unsigned 32-bit range, the ticket [new]
    returns is the hexadecimal digest ([2 * digest_size] lower-case digits),
    the expiry as eight lower-case zero-padded hexadecimal digits, the quoted
    user id, ['!'], the quoted tokens joined by [','] (nothing for no token),
    ['!'] and the quoted user data; no quoted user id, token or user data
    contains [','], NUL or ['!']. *)
Theorem new_serialization_format self st o uid toks ud vu ip enc t st' :
  heap st !! _hash self = Some o ->
  alg_ok (algorithm o) ->
  0 <= expiry vu st < 4294967296 ->
  new self uid toks ud vu ip enc st = (Ok t, st') ->
  exists (d qid : str) (qs : list str) (qud : str),
    quote uid = Some qid
    /\ mapM quote (default [] toks) = Some qs
    /\ quote (default [] ud) = Some qud
    /\ t = d ++ hex_fixed 8 (expiry vu st)
           ++ qid ++ lit "!" ++ join (lit ",") qs ++ lit "!" ++ qud
    /\ (exists m, d = hexlify (hash_fn (algorithm o) m))
    /\ length d = (2 * digest_size (algorithm o))%nat
    /\ forallb is_lower_hex d = true
    /\ length (hex_fixed 8 (expiry vu st)) = 8%nat
    /\ forallb is_lower_hex (hex_fixed 8 (expiry vu st)) = true
    /\ hex_value (hex_fixed 8 (expiry vu st)) = expiry vu st
    /\ (default [] toks = [] -> join (lit ",") qs = [])
    /\ (forall f c,
           f = qid \/ In f qs \/ f = qud ->
           c = ord "," \/ c = 0 \/ c = ord "!" ->
           mem c f = false).
Proof.
  intros Ho Hok Hv Hnew.
  destruct (new_Ok _ _ _ _ _ _ _ _ _ _ _ Ho Hnew) as (p & Hp & -> & ->).
  destruct (prepare_Ok _ _ _ _ _ _ _ Hp)
    as (qid & qs & qud & d1 & Hqid & Hqs & Hqud & _ & Hd1 & ->).
  eexists (hexmac _ _ _ _), qid, qs, qud.
  split; [exact Hqid|]. split; [exact Hqs|]. split; [exact Hqud|].
  split; [rewrite ticket_text_eq, (format_08x_u32 _ Hv); reflexivity|].
  split; [eexists; reflexivity|].
  split; [rewrite (length_hexmac _ _ _ _ Hok); lia|].
  split; [apply hexlify_lower, Hok|].
  split; [apply length_hex_fixed|].
  split; [apply hex_fixed_lower|].
  split; [rewrite hex_value_fixed by lia; apply Z.mod_small;
          change (16 ^ Z.of_nat 8) with 4294967296; lia|].
  split.
  - intros E. rewrite E in Hqs. cbn in Hqs. now injection Hqs as <-.
  - intros f c Hf Hc.
    assert (Hc' : c = 33 \/ c = 44 \/ c = 0)
      by (change (ord ",") with 44 in Hc; change (ord "!") with 33 in Hc; tauto).
    apply (pchars_no_delim _ _ Hc').
    destruct Hf as [->|[Hin| ->]].
    + apply (quote_chars _ _ Hqid).
    + pose proof (mapM_quote_chars _ _ Hqs) as Hall.
      rewrite forallb_forall in Hall. now apply Hall.
    + apply (quote_chars _ _ Hqud).
Qed.

Lemma new_serialization_format_witness :
  exists (d qid : str) (qs : list str) (qud : str),
    quote (lit "alice") = Some qid
    /\ mapM quote [] = Some qs
    /\ quote [] = Some qud
    /\ alice_ticket
       = d ++ hex_fixed 8 1000000000
         ++ qid ++ lit "!" ++ join (lit ",") qs ++ lit "!" ++ qud
    /\ length d = 128%nat
    /\ forallb is_lower_hex d = true.
Proof.
  destruct (new_serialization_format demo_factory demo_state demo_hash
              (lit "alice") None None (Some 1000000000) None utf_8
              alice_ticket _ eq_refl sha512_ok ltac:(cbn; lia)
              (alice_new demo_factory demo_state eq_refl eq_refl))
    as (d & qid & qs & qud & H1 & H2 & H3 & H4 & _ & H6 & H7 & _).
  exists d, qid, qs, qud.
  exact (conj H1 (conj H2 (conj H3 (conj H4 (conj H6 H7))))).
Defined.

(** ** The factory keeps its state *)

Lemma new_frame self st uid toks ud vu ip enc r st' :
  new self uid toks ud vu ip enc st = (r, st') ->
  (exists ext, heap st' = heap st ++ ext) /\ clock st' = clock st.
Proof.
  destruct (heap st !! _hash self) as [o|] eqn:Ho.
  - rewrite (new_run _ _ _ _ _ _ _ _ _ Ho).
    destruct (prepare _ _ _ _ _ _) as [p|e]; intros [= _ <-].
    + split; [eexists; reflexivity|reflexivity].
    + split; [exists []; now rewrite app_nil_r|reflexivity].
  - unfold new, _hexdigest, hash_copy.
    destruct vu as [v|], toks as [[|t ts]|], ud as [[|c d]|];
      monad_unfold; unfold time_time;
      (destruct (quote uid) as [qid|]; [|intros [= _ <-];
          split; [exists []; now rewrite app_nil_r|reflexivity]]);
      try (destruct (mapM quote (t :: ts)) as [qs|]; [|intros [= _ <-];
          split; [exists []; now rewrite app_nil_r|reflexivity]]);
      try (destruct (quote (c :: d)) as [qud|]; [|intros [= _ <-];
          split; [exists []; now rewrite app_nil_r|reflexivity]]);
      (destruct (pack_I_be _) as [p|]; [|intros [= _ <-];
          split; [exists []; now rewrite app_nil_r|reflexivity]]);
      (destruct (enc _) as [d1|]; [|intros [= _ <-];
          split; [exists []; now rewrite app_nil_r|reflexivity]]);
      rewrite Ho; intros [= _ <-];
      (split; [exists []; now rewrite app_nil_r|reflexivity]).
Qed.

(** The result of [new] depends on the store only through the factory's
    hash object and the clock. *)
Lemma new_fst_indep self st1 st2 o uid toks ud vu ip enc :
  heap st1 !! _hash self = Some o ->
  heap st2 !! _hash self = Some o ->
  clock st1 = clock st2 ->
  fst (new self uid toks ud vu ip enc st1) = fst (new self uid toks ud vu ip enc st2).
Proof.
  intros H1 H2 Hc.
  rewrite (new_run _ _ _ _ _ _ _ _ _ H1), (new_run _ _ _ _ _ _ _ _ _ H2).
  assert (He : expiry vu st1 = expiry vu st2)
    by (destruct vu; cbn; congruence).
  rewrite He. now destruct (prepare _ _ _ _ _ _).
Qed.

Lemma validate_fst_indep self st1 st2 o ticket ip now enc :
  heap st1 !! _hash self = Some o ->
  heap st2 !! _hash self = Some o ->
  clock st1 = clock st2 ->
  fst (validate self ticket ip now enc st1)
  = fst (validate self ticket ip now enc st2).
Proof.
  intros H1 H2 Hc.
  rewrite (validate_run _ _ _ _ _ _ _ H1), (validate_run _ _ _ _ _ _ _ H2).
  destruct (parse_text _ _) as [parts|e]; [|reflexivity].
  pose proof (new_fst_indep self st1 st2 o (user_id parts)
                (Some (tokens parts)) (Some (user_data parts))
                (Some (valid_until parts)) ip enc H1 H2 Hc) as Hn.
  destruct (new _ _ _ _ _ _ _ st1) as [r1 s1].
  destruct (new _ _ _ _ _ _ _ st2) as [r2 s2].
  cbn [fst] in Hn. subst r2. rewrite Hc.
  destruct r1 as [nt|e]; [|reflexivity].
  destruct (negb _); [reflexivity|]. now destruct (_ <=? _).
Qed.

Lemma validate_frame self st o ticket ip now enc r st' :
  heap st !! _hash self = Some o ->
  validate self ticket ip now enc st = (r, st') ->
  (exists ext, heap st' = heap st ++ ext) /\ clock st' = clock st.
Proof.
  intros Ho. rewrite (validate_run _ _ _ _ _ _ _ Ho).
  destruct (parse_text _ _) as [parts|e].
  - destruct (new _ _ _ _ _ _ _ _) as [[nt|e] s] eqn:Hnew;
      (destruct (new_frame _ _ _ _ _ _ _ _ _ _ Hnew) as [Hext Hclk]).
    + destruct (negb _); [|destruct (_ <=? _)]; intros [= _ <-]; now split.
    + intros [= _ <-]; now split.
  - intros [= _ <-]. split; [exists []; now rewrite app_nil_r|reflexivity].
Qed.

(** C8.  No call changes the factory's state.  [_hexdigest] works in two
    objects copied from the stored hash object and appended to the store;
    [new] and [validate] leave every object that was in the store as it was,
    the stored hash object among them, and do not move the clock; [parse]
    leaves the whole store as it was; the secret is read, never assigned.
    So the same call made again returns the same result. *)
Theorem factory_state_unchanged self st o :
  heap st !! _hash self = Some o ->
  (forall data0 data1,
      exists text obj0 obj1,
        _hexdigest self data0 data1 st = (Ok text, extend [obj0; obj1] st))
  /\ (forall uid toks ud vu ip enc r st',
         new self uid toks ud vu ip enc st = (r, st') ->
         (exists ext, heap st' = heap st ++ ext)
         /\ clock st' = clock st
         /\ heap st' !! _hash self = Some o
         /\ fst (new self uid toks ud vu ip enc st') = r)
  /\ (forall ticket r st',
         parse self ticket st = (r, st') ->
         st' = st /\ parse self ticket st' = (r, st'))
  /\ (forall ticket ip now enc r st',
         validate self ticket ip now enc st = (r, st') ->
         (exists ext, heap st' = heap st ++ ext)
         /\ clock st' = clock st
         /\ heap st' !! _hash self = Some o
         /\ fst (validate self ticket ip now enc st') = r).
Proof.
  intros Ho. split; [|split; [|split]].
  - intros data0 data1. rewrite (_hexdigest_run _ _ _ _ _ Ho).
    do 3 eexists. reflexivity.
  - intros uid toks ud vu ip enc r st' Hnew.
    destruct (new_frame _ _ _ _ _ _ _ _ _ _ Hnew) as [[ext Hext] Hclk].
    assert (Ho' : heap st' !! _hash self = Some o)
      by (rewrite Hext; now apply lookup_old).
    repeat split; eauto.
    rewrite (new_fst_indep self st' st o _ _ _ _ _ _ Ho' Ho Hclk).
    now rewrite Hnew.
  - intros ticket r st' Hp. pose proof (parse_same_state _ _ _ _ _ Hp) as ->.
    now split.
  - intros ticket ip now enc r st' Hv.
    destruct (validate_frame _ _ _ _ _ _ _ _ _ Ho Hv) as [[ext Hext] Hclk].
    assert (Ho' : heap st' !! _hash self = Some o)
      by (rewrite Hext; now apply lookup_old).
    repeat split; eauto.
    rewrite (validate_fst_indep self st' st o _ _ _ _ Ho' Ho Hclk).
    now rewrite Hv.
Qed.

Lemma factory_state_unchanged_witness :
  let st' := extend (scratch (lit "s3cret") demo_hash (p_data0 alice_pieces)
                       (p_data1 alice_pieces)) demo_state in
  new demo_factory (lit "alice") None None (Some 1000000000) None utf_8
    demo_state = (Ok alice_ticket, st')
  /\ heap st' !! _hash demo_factory = Some demo_hash
  /\ clock st' = clock demo_state
  /\ fst (new demo_factory (lit "alice") None None (Some 1000000000) None
            utf_8 st') = Ok alice_ticket.
Proof.
  intros st'.
  pose proof (alice_new demo_factory demo_state eq_refl eq_refl) as Hnew.
  destruct (proj1 (proj2 (factory_state_unchanged demo_factory demo_state
                            demo_hash eq_refl)) _ _ _ _ _ _ _ _ Hnew)
    as (_ & H2 & H3 & H4).
  exact (conj Hnew (conj H3 (conj H2 H4))).
Defined.

(** ** The empty user id *)

(** C9.  The empty user id is accepted.  [parse] reads a text made of a
    digest, a time field and ["!!"], which has the minimum length plus the
    two separators, as a ticket with empty user id, no tokens and empty user
    data.  [new] with the empty user id returns a ticket whose user id field
    is empty (just digest, time field and ["!!"] when there are no tokens and
    no user data); [parse] reads the empty user id back from it, and
    [validate] never rejects its digest: it returns the fields unless the
    ticket has expired. *)
Theorem empty_user_id_accepted self st o (toks : list str) (ud : str) vu ip :
  heap st !! _hash self = Some o ->
  alg_ok (algorithm o) ->
  forallb (forallb is_scalar) toks = true ->
  forallb is_scalar ud = true ->
  toks <> [[]] ->
  0 <= vu < 4294967296 ->
  let n := (digest_size (algorithm o) * 2)%nat in
  (forall d tm v,
      length d = n -> length tm = 8%nat -> int16 tm = Some v ->
      length (d ++ tm ++ lit "!!") = (n + 8 + 2)%nat
      /\ parse self (d ++ tm ++ lit "!!") st
         = (Ok {| digest := d; user_id := []; tokens := []; user_data := [];
                  valid_until := v |}, st))
  /\ exists t st' d,
      new self [] (Some toks) (Some ud) (Some vu) ip utf_8 st = (Ok t, st')
      /\ length d = n
      /\ (exists rest, t = d ++ hex_fixed 8 vu ++ [] ++ lit "!" ++ rest)
      /\ (toks = [] -> ud = [] -> t = d ++ hex_fixed 8 vu ++ lit "!!")
      /\ parse self t st'
         = (Ok {| digest := d; user_id := []; tokens := toks;
                  user_data := ud; valid_until := vu |}, st')
      /\ forall now,
          exists r st'',
            validate self t ip now utf_8 st' = (r, st'')
            /\ r <> Raise (Ticket (TicketDigestError t))
            /\ (default (clock st') now < vu ->
                r = Ok {| digest := d; user_id := []; tokens := toks;
                          user_data := ud; valid_until := vu |}).
Proof.
  intros Ho Hok Htoks Hud Hne Hvu n. split.
  - intros d tm v Hd Htm Hv.
    split; [rewrite !length_app, Hd, Htm; cbn [lit length]; cbn; lia|].
    rewrite (parse_run _ _ _ _ Ho). unfold parse_text. fold n.
    destruct (ticket_slices d tm (lit "!!") n Hd Htm) as (Hl & H1 & H2 & H3).
    rewrite Hl, H1, H2, H3, Hv. reflexivity.
  - destruct (prepare_total [] toks ud vu (default _DEFAULT_IP ip)
                eq_refl Htoks Hud Hvu) as [p Hp].
    pose proof (extend_lookup (scratch (_secret self) o (p_data0 p) (p_data1 p))
                  _ _ _ Ho) as Ho'.
    exists (ticket_text (_secret self) o vu p),
      (extend (scratch (_secret self) o (p_data0 p) (p_data1 p)) st),
      (hexmac (_secret self) o (p_data0 p) (p_data1 p)).
    split; [|split; [|split; [|split; [|split]]]].
    + rewrite (new_run _ _ _ _ _ _ _ _ _ Ho). cbn [default id expiry].
      now rewrite Hp.
    + now apply length_hexmac.
    + rewrite ticket_text_eq, (format_08x_u32 _ Hvu).
      destruct (prepare_Ok _ _ _ _ _ _ _ Hp)
        as (qid & qs & qud & d1 & Hqid & _ & _ & _ & _ & ->).
      rewrite quote_nil in Hqid. injection Hqid as <-.
      cbn [p_user_id p_token_str p_user_str]. eexists. reflexivity.
    + intros -> ->. rewrite ticket_text_eq, (format_08x_u32 _ Hvu).
      destruct (prepare_Ok _ _ _ _ _ _ _ Hp)
        as (qid & qs & qud & d1 & Hqid & Hqs & Hqud & _ & _ & ->).
      rewrite quote_nil in Hqid, Hqud. injection Hqid as <-.
      injection Hqud as <-. cbn in Hqs. injection Hqs as <-. reflexivity.
    + rewrite (parse_run _ _ _ _ Ho').
      now rewrite (parse_ticket_text _ _ _ _ _ _ _ _ _ Hok Hp Hne).
    + intros now.
      rewrite (validate_issued _ _ _ _ _ _ _ _ _ _ now Ho' Hok Hp Hne).
      do 2 eexists. split; [reflexivity|].
      destruct (Z.leb_spec vu (default (clock (extend (scratch (_secret self) o
                                 (p_data0 p) (p_data1 p)) st)) now)).
      * split; [discriminate|]. intros; lia.
      * split; [discriminate|]. reflexivity.
Qed.

Lemma empty_user_id_accepted_witness :
  exists t st' d,
    new demo_factory [] (Some []) (Some []) (Some 1000000000) None utf_8
      demo_state = (Ok t, st')
    /\ length d = 128%nat
    /\ t = d ++ hex_fixed 8 1000000000 ++ lit "!!"
    /\ parse demo_factory t st'
       = (Ok {| digest := d; user_id := []; tokens := []; user_data := [];
                valid_until := 1000000000 |}, st').
Proof.
  destruct (proj2 (empty_user_id_accepted demo_factory demo_state demo_hash
                     [] [] 1000000000 None eq_refl sha512_ok eq_refl eq_refl
                     ltac:(discriminate) ltac:(lia)))
    as (t & st' & d & H1 & H2 & _ & H4 & H5 & _).
  exists t, st', d.
  exact (conj H1 (conj H2 (conj (H4 eq_refl eq_refl) H5))).
Defined.

(** ** The expiry that [new] accepts *)

(** C10.  When the effective expiry is negative or at least [2 ^ 32],
    [pack] fails and [new] raises without returning a ticket or touching the
    store; the exception is [struct.error] whenever the texts could be
    quoted.  When the expiry is in range [pack] gives four bytes.  Every
    ticket [new] returns therefore carries, after the digest, its expiry as
    eight hexadecimal digits that [int(_, 16)] reads back. *)
Theorem new_valid_until_range self st o (uid : str) (toks : option (list str))
    (ud : option str) vu ip enc :
  heap st !! _hash self = Some o ->
  alg_ok (algorithm o) ->
  let v := expiry vu st in
  let n := (digest_size (algorithm o) * 2)%nat in
  (~ 0 <= v < 4294967296 ->
   pack_I_be v = None
   /\ (exists e, new self uid toks ud vu ip enc st = (Raise e, st))
   /\ (forallb is_scalar uid = true ->
       forallb (forallb is_scalar) (default [] toks) = true ->
       forallb is_scalar (default [] ud) = true ->
       new self uid toks ud vu ip enc st = (Raise struct_error, st)))
  /\ (0 <= v < 4294967296 ->
      pack_I_be v = Some (to_bytes_be 4 v) /\ length (to_bytes_be 4 v) = 4%nat)
  /\ (forall t st',
         new self uid toks ud vu ip enc st = (Ok t, st') ->
         0 <= v < 4294967296
         /\ slice n (n + 8) t = hex_fixed 8 v
         /\ int16 (slice n (n + 8) t) = Some v).
Proof.
  intros Ho Hok v n. split; [|split].
  - intros Hv.
    assert (Hpack : pack_I_be v = None).
    { destruct (pack_I_be v) as [pk|] eqn:E; [|reflexivity].
      exfalso. apply Hv. apply pack_I_be_Some. eauto. }
    split; [exact Hpack|].
    rewrite (new_run _ _ _ _ _ _ _ _ _ Ho). fold v. unfold prepare.
    rewrite Hpack. split.
    + destruct (quote uid); [|eauto].
      destruct (mapM quote _); [|eauto]. destruct (quote _); eauto.
    + intros H1 H2 H3.
      apply quote_Some in H1 as [qid ->].
      apply mapM_quote_Some in H2 as [qs ->].
      apply quote_Some in H3 as [qud ->]. reflexivity.
  - intros Hv. split; [|apply length_to_bytes_be].
    apply pack_I_be_Some in Hv as [pk Hpk]. rewrite Hpk. f_equal.
    now apply pack_I_be_eq.
  - intros t st' Hnew.
    destruct (new_Ok _ _ _ _ _ _ _ _ _ _ _ Ho Hnew) as (p & Hp & -> & ->).
    destruct (prepare_Ok _ _ _ _ _ _ _ Hp)
      as (qid & qs & qud & d1 & _ & _ & _ & Hv & _ & _).
    fold v in Hv. split; [exact Hv|].
    rewrite ticket_text_eq. fold v. rewrite (format_08x_u32 _ Hv).
    destruct (ticket_slices (hexmac (_secret self) o (p_data0 p) (p_data1 p))
                (hex_fixed 8 v)
                (p_user_id p ++ ord "!" :: p_token_str p ++ ord "!" :: p_user_str p)
                n (length_hexmac _ _ _ _ Hok) (length_hex_fixed _ _))
      as (_ & _ & Hs & _).
    rewrite Hs. split; [reflexivity|now apply int16_hex_fixed].
Qed.

Lemma new_valid_until_range_witness :
  pack_I_be 4294967296 = None
  /\ new demo_factory (lit "alice") None None (Some 4294967296) None utf_8
       demo_state = (Raise struct_error, demo_state)
  /\ new demo_factory (lit "alice") None None (Some (-1)) None utf_8
       demo_state = (Raise struct_error, demo_state)
  /\ slice 128 136 alice_ticket = hex_fixed 8 1000000000.
Proof.
  destruct (new_valid_until_range demo_factory demo_state demo_hash
              (lit "alice") None None (Some 4294967296) None utf_8
              eq_refl sha512_ok) as [Hhigh _].
  destruct (new_valid_until_range demo_factory demo_state demo_hash
              (lit "alice") None None (Some (-1)) None utf_8
              eq_refl sha512_ok) as [Hlow _].
  destruct (new_valid_until_range demo_factory demo_state demo_hash
              (lit "alice") None None (Some 1000000000) None utf_8
              eq_refl sha512_ok) as (_ & _ & Hret).
  cbv zeta in Hhigh, Hlow, Hret. cbn [expiry] in Hhigh, Hlow, Hret.
  destruct (Hhigh ltac:(lia)) as (H1 & _ & H3).
  destruct (Hlow ltac:(lia)) as (_ & _ & H4).
  destruct (Hret _ _ (alice_new demo_factory demo_state eq_refl eq_refl))
    as (_ & H5 & _).
  exact (conj H1 (conj (H3 eq_refl eq_refl eq_refl)
                   (conj (H4 eq_refl eq_refl eq_refl) H5))).
Defined.

(** * Further properties *)

(** ** Issuing, then validating *)

Lemma norm_tokens_ne toks : norm_tokens toks <> [[]].
Proof. destruct toks as [|[|c t] [|t' ts]]; discriminate. Qed.

Lemma prepare_norm uid toks ud v ip enc :
  prepare uid (norm_tokens toks) ud v ip enc = prepare uid toks ud v ip enc.
Proof.
  destruct toks as [|[|c t] [|t' ts]]; reflexivity.
Qed.

(** X1.  A ticket [new] returned is accepted by [validate] when it is given
    the same address and encoding, by the issuing factory and by any factory
    object that holds the same secret and an equal hash object, in any store:
    no parse error, no digest error.  The result is the issued fields (the
    single empty token read as no token) while the time is before the expiry,
    and [TicketExpired] from then on. *)
Theorem validate_accepts_issued self st o uid toks ud vu ip enc t st1
    self' st' now :
  heap st !! _hash self = Some o ->
  alg_ok (algorithm o) ->
  new self uid toks ud vu ip enc st = (Ok t, st1) ->
  _secret self' = _secret self ->
  heap st' !! _hash self' = Some o ->
  let v := expiry vu st in
  let fields :=
    {| digest := slice_to (digest_size (algorithm o) * 2) t;
       user_id := uid; tokens := norm_tokens (default [] toks);
       user_data := default [] ud; valid_until := v |} in
  exists st2,
    (default (clock st') now < v ->
     validate self' t ip now enc st' = (Ok fields, st2))
    /\ (v <= default (clock st') now ->
        validate self' t ip now enc st'
        = (Raise (Ticket (TicketExpired t)), st2)).
Proof.
  intros Ho Hok Hnew Hsec Ho'. cbv zeta.
  destruct (new_Ok _ _ _ _ _ _ _ _ _ _ _ Ho Hnew) as (p & Hp & -> & _).
  rewrite <- prepare_norm in Hp. rewrite <- Hsec.
  eexists.
  rewrite (validate_issued _ _ _ _ _ _ _ _ _ _ now Ho' Hok Hp
             (norm_tokens_ne _)).
  rewrite (digest_prefix _ _ _ _ Hok).
  split; intros H;
    destruct (Z.leb_spec (expiry vu st) (default (clock st') now));
    (reflexivity || lia).
Qed.

Lemma validate_accepts_issued_witness :
  exists t st1 st2 st3,
    new demo_factory (lit "alice") (Some [lit "admin"; lit "a,b"])
      (Some (lit "x=1")) (Some 2000) (Some (IPv6Address 1)) utf_8 demo_state
    = (Ok t, st1)
    /\ validate demo_factory t (Some (IPv6Address 1)) (Some 1999) utf_8 st1
       = (Ok {| digest := slice_to 128 t; user_id := lit "alice";
                tokens := [lit "admin"; lit "a,b"]; user_data := lit "x=1";
                valid_until := 2000 |}, st2)
    /\ validate demo_factory t (Some (IPv6Address 1)) (Some 2000) utf_8 st1
       = (Raise (Ticket (TicketExpired t)), st3).
Proof.
  destruct (prepare_total (lit "alice") [lit "admin"; lit "a,b"] (lit "x=1")
              2000 (IPv6Address 1) eq_refl eq_refl eq_refl ltac:(lia))
    as [p Hp].
  set (st1 := extend (scratch (lit "s3cret") demo_hash (p_data0 p) (p_data1 p))
                demo_state).
  assert (Hnew :
    new demo_factory (lit "alice") (Some [lit "admin"; lit "a,b"])
      (Some (lit "x=1")) (Some 2000) (Some (IPv6Address 1)) utf_8 demo_state
    = (Ok (ticket_text (lit "s3cret") demo_hash 2000 p), st1)).
  { rewrite (new_run demo_factory demo_state demo_hash) by reflexivity.
    cbn [default id expiry]. now rewrite Hp. }
  destruct (validate_accepts_issued demo_factory demo_state demo_hash _ _ _ _
              _ _ _ _ demo_factory st1 (Some 1999) eq_refl sha512_ok Hnew
              eq_refl eq_refl) as (st2 & Hok & _).
  destruct (validate_accepts_issued demo_factory demo_state demo_hash _ _ _ _
              _ _ _ _ demo_factory st1 (Some 2000) eq_refl sha512_ok Hnew
              eq_refl eq_refl) as (st3 & _ & Hex).
  eexists _, _, st2, st3.
  exact (conj Hnew (conj (Hok ltac:(cbn; lia)) (Hex ltac:(cbn; lia)))).
Defined.

(** X2.  A ticket issued without an expiry carries the clock plus 120
    seconds and is accepted, by the clock, for 120 seconds and no longer. *)
Theorem new_default_lifetime self st o uid toks ud ip enc t st1 st' :
  heap st !! _hash self = Some o ->
  alg_ok (algorithm o) ->
  new self uid toks ud None ip enc st = (Ok t, st1) ->
  heap st' !! _hash self = Some o ->
  (exists parts,
      parse self t st' = (Ok parts, st')
      /\ valid_until parts = clock st + 120)
  /\ ((exists parts st2, validate self t ip None enc st' = (Ok parts, st2))
      <-> clock st' < clock st + 120)
  /\ ((exists st2,
         validate self t ip None enc st'
         = (Raise (Ticket (TicketExpired t)), st2))
      <-> clock st + 120 <= clock st').
Proof.
  intros Ho Hok Hnew Ho'.
  destruct (validate_accepts_issued _ _ _ _ _ _ _ _ _ _ _ self st' None
              Ho Hok Hnew eq_refl Ho') as (st2 & Hlt & Hge).
  cbv zeta in Hlt, Hge. cbn [expiry default id] in Hlt, Hge.
  change _DEFAULT_TIMEOUT with 120 in Hlt, Hge.
  split; [|split].
  - destruct (new_Ok _ _ _ _ _ _ _ _ _ _ _ Ho Hnew) as (p & Hp & -> & _).
    rewrite <- prepare_norm in Hp.
    rewrite (parse_run _ _ _ _ Ho').
    rewrite (parse_ticket_text _ _ _ _ _ _ _ _ _ Hok Hp (norm_tokens_ne _)).
    eexists. split; reflexivity.
  - split.
    + intros (parts & s & Hv).
      destruct (Z.lt_ge_cases (clock st') (clock st + 120)) as [|Hc]; [assumption|].
      rewrite (Hge Hc) in Hv. discriminate.
    + intros Hc. rewrite (Hlt Hc). eauto.
  - split.
    + intros (s & Hv).
      destruct (Z.lt_ge_cases (clock st') (clock st + 120)) as [Hc|]; [|assumption].
      rewrite (Hlt Hc) in Hv. discriminate.
    + intros Hc. rewrite (Hge Hc). eauto.
Qed.

Lemma new_default_lifetime_witness :
  exists t st1,
    new demo_factory (lit "alice") None None None None utf_8 demo_state
    = (Ok t, st1)
    /\ (exists parts,
           parse demo_factory t st1 = (Ok parts, st1)
           /\ valid_until parts = 120)
    /\ (exists parts st2,
           validate demo_factory t None None utf_8 st1 = (Ok parts, st2)).
Proof.
  destruct (prepare_total (lit "alice") [] [] 120 _DEFAULT_IP
              eq_refl eq_refl eq_refl ltac:(lia)) as [p Hp].
  set (st1 := extend (scratch (lit "s3cret") demo_hash (p_data0 p) (p_data1 p))
                demo_state).
  assert (Hnew :
    new demo_factory (lit "alice") None None None None utf_8 demo_state
    = (Ok (ticket_text (lit "s3cret") demo_hash 120 p), st1)).
  { rewrite (new_run demo_factory demo_state demo_hash) by reflexivity.
    cbn [default id expiry]. change (clock demo_state + _DEFAULT_TIMEOUT) with 120.
    now rewrite Hp. }
  destruct (new_default_lifetime demo_factory demo_state demo_hash _ _ _ _ _
              _ _ st1 eq_refl sha512_ok Hnew eq_refl) as (H1 & H2 & _).
  eexists _, st1.
  exact (conj Hnew (conj H1 (proj2 H2 ltac:(cbn; lia)))).
Defined.

(** ** Changed tickets *)

Lemma ticket_text_body secret o v p :
  ticket_text secret o v p
  = hexmac secret o (p_data0 p) (p_data1 p) ++ ticket_body v p.
Proof. apply ticket_text_eq. Qed.

(** Parsing the body [new] wrote behind any digest of the right length. *)
Lemma parse_body (d : str) o (uid : str) (toks : list str) (ud : str)
    v ip enc p :
  length d = (digest_size (algorithm o) * 2)%nat ->
  prepare uid toks ud v ip enc = Ok p ->
  toks <> [[]] ->
  parse_text (digest_size (algorithm o)) (d ++ ticket_body v p)
  = Ok {| digest := d; user_id := uid; tokens := toks; user_data := ud;
          valid_until := v |}.
Proof.
  intros Hlen Hp Hne.
  destruct (prepare_Ok _ _ _ _ _ _ _ Hp)
    as (qid & qs & qud & d1 & Hqid & Hqs & Hqud & Hv & _ & ->).
  unfold ticket_body. cbn [p_user_id p_token_str p_user_str].
  rewrite (format_08x_u32 _ Hv).
  destruct (ticket_slices d (hex_fixed 8 v)
              (qid ++ ord "!" :: join [ord ","] qs ++ ord "!" :: qud)
              (digest_size (algorithm o) * 2) Hlen (length_hex_fixed _ _))
    as (Hl & Hd & Ht & Hrest).
  unfold parse_text. rewrite Hl, Hd, Ht, Hrest, (int16_hex_fixed _ Hv).
  pose proof (quote_chars _ _ Hqid) as Cid.
  pose proof (quote_chars _ _ Hqud) as Cud.
  pose proof (mapM_quote_chars _ _ Hqs) as Cqs.
  change (ord "!") with 33.
  rewrite split_app by (apply pchars_no_delim; [tauto|assumption]).
  rewrite split_app
    by (apply mem_join; [discriminate|apply pchars_no_delims; [tauto|assumption]]).
  rewrite split_no_sep by (apply pchars_no_delim; [tauto|assumption]).
  rewrite (unquote_quote _ _ Hqid), (unquote_quote _ _ Hqud).
  rewrite (tokens_roundtrip _ _ Hqs Hne). reflexivity.
Qed.

(** X3.  Changing the digest of an issued ticket to any other text of the
    same length makes [validate] raise [TicketDigestError], at any time,
    expired or not. *)
Theorem validate_rejects_changed_digest self st o uid toks ud vu ip enc t st1
    (d' : str) now :
  heap st !! _hash self = Some o ->
  alg_ok (algorithm o) ->
  new self uid toks ud vu ip enc st = (Ok t, st1) ->
  let n := (digest_size (algorithm o) * 2)%nat in
  length d' = n ->
  d' <> slice_to n t ->
  exists st2,
    validate self (d' ++ slice_from n t) ip now enc st1
    = (Raise (Ticket (TicketDigestError (d' ++ slice_from n t))), st2).
Proof.
  intros Ho Hok Hnew n Hlen Hd.
  destruct (new_Ok _ _ _ _ _ _ _ _ _ _ _ Ho Hnew) as (p & Hp & -> & ->).
  rewrite <- prepare_norm in Hp.
  pose proof (extend_lookup (scratch (_secret self) o (p_data0 p) (p_data1 p))
                _ _ _ Ho) as Ho'.
  rewrite (digest_prefix _ _ _ _ Hok) in Hd.
  assert (Hbody : slice_from n (ticket_text (_secret self) o (expiry vu st) p)
                  = ticket_body (expiry vu st) p).
  { rewrite ticket_text_body. apply drop_app_length'.
    symmetry. now apply length_hexmac. }
  rewrite Hbody. eexists.
  rewrite (validate_run _ _ _ _ _ _ _ Ho').
  rewrite (parse_body _ _ _ _ _ _ _ _ _ Hlen Hp (norm_tokens_ne _)).
  cbn [user_id tokens user_data valid_until digest].
  rewrite (new_run _ _ _ _ _ _ _ _ _ Ho'). cbn [default id expiry].
  rewrite Hp, (digest_prefix _ _ _ _ Hok), str_eqb_neq by congruence.
  reflexivity.
Qed.

Lemma validate_rejects_changed_digest_witness :
  let forged := lit "3" ++ drop 1 alice_ticket in
  exists st1 st2,
    new demo_factory (lit "alice") None None (Some 1000000000) None utf_8
      demo_state = (Ok alice_ticket, st1)
    /\ validate demo_factory forged None (Some 0) utf_8 st1
       = (Raise (Ticket (TicketDigestError forged)), st2).
Proof.
  intros forged.
  pose proof (alice_new demo_factory demo_state eq_refl eq_refl) as Hnew.
  destruct (validate_rejects_changed_digest demo_factory demo_state demo_hash
              _ _ _ _ _ _ _ _ (lit "3" ++ drop 1 (slice_to 128 alice_ticket))
              (Some 0) eq_refl sha512_ok Hnew eq_refl ltac:(discriminate))
    as [st2 Hv].
  eexists _, st2. exact (conj Hnew Hv).
Defined.

Lemma prepare_Raise uid toks ud v ip enc e :
  prepare uid toks ud v ip enc = Raise e ->
  e = UnicodeEncodeError \/ e = struct_error.
Proof.
  unfold prepare.
  destruct (quote uid); [|intros [= <-]; now left].
  destruct (mapM quote toks); [|intros [= <-]; now left].
  destruct (quote ud); [|intros [= <-]; now left].
  destruct (pack_I_be v); [|intros [= <-]; now right].
  destruct (enc _); [discriminate|intros [= <-]; now left].
Qed.

(** X4.  [validate] looks at the ticket text only through what [parse] reads
    from it: two texts that parse to the same fields are accepted together,
    with the same result, or rejected together, for the same reason.  So a
    ticket stays valid when its time field or its percent-encoding is
    spelled differently. *)
Theorem validate_same_fields self st o t1 t2 parts ip now enc :
  heap st !! _hash self = Some o ->
  parse self t1 st = (Ok parts, st) ->
  parse self t2 st = (Ok parts, st) ->
  (forall r st',
      validate self t1 ip now enc st = (Ok r, st')
      <-> validate self t2 ip now enc st = (Ok r, st'))
  /\ (forall st',
         validate self t1 ip now enc st
         = (Raise (Ticket (TicketDigestError t1)), st')
         <-> validate self t2 ip now enc st
             = (Raise (Ticket (TicketDigestError t2)), st'))
  /\ (forall st',
         validate self t1 ip now enc st
         = (Raise (Ticket (TicketExpired t1)), st')
         <-> validate self t2 ip now enc st
             = (Raise (Ticket (TicketExpired t2)), st')).
Proof.
  intros Ho H1 H2.
  rewrite (parse_run _ _ _ _ Ho) in H1. rewrite (parse_run _ _ _ _ Ho) in H2.
  injection H1 as H1. injection H2 as H2.
  rewrite !(validate_run _ _ _ _ _ _ _ Ho), H1, H2.
  rewrite (new_run _ _ _ _ _ _ _ _ _ Ho).
  destruct (prepare _ _ _ _ _ _) as [p|e] eqn:Hp.
  - destruct (negb _); [|destruct (_ <=? _)];
      (split; [|split]); intros; split; intros [=]; subst; reflexivity.
  - destruct (prepare_Raise _ _ _ _ _ _ _ Hp) as [-> | ->];
      (split; [|split]); intros; split; intros [=].
Qed.

Lemma validate_same_fields_witness :
  let respelled := slice_to 128 alice_ticket ++ lit "3B9ACA00%61lice!!" in
  exists st',
    validate demo_factory respelled None (Some 0) utf_8 demo_state
    = (Ok {| digest := slice_to 128 alice_ticket; user_id := lit "alice";
             tokens := []; user_data := []; valid_until := 1000000000 |}, st').
Proof.
  intros respelled.
  assert (Hp : forall t,
             parse_text 64 t
             = Ok {| digest := slice_to 128 alice_ticket; user_id := lit "alice";
                     tokens := []; user_data := [];
                     valid_until := 1000000000 |} ->
             parse demo_factory t demo_state
             = (Ok {| digest := slice_to 128 alice_ticket;
                      user_id := lit "alice"; tokens := []; user_data := [];
                      valid_until := 1000000000 |}, demo_state)).
  { intros t Ht. rewrite (parse_run demo_factory _ demo_hash) by reflexivity.
    cbn [algorithm demo_hash sha512 digest_size]. now rewrite Ht. }
  assert (H1 : parse_text 64 alice_ticket
               = Ok {| digest := slice_to 128 alice_ticket;
                       user_id := lit "alice"; tokens := []; user_data := [];
                       valid_until := 1000000000 |})
    by (vm_compute; reflexivity).
  assert (H2 : parse_text 64 respelled
               = Ok {| digest := slice_to 128 alice_ticket;
                       user_id := lit "alice"; tokens := []; user_data := [];
                       valid_until := 1000000000 |})
    by (vm_compute; reflexivity).
  destruct (validate_same_fields demo_factory demo_state demo_hash
              alice_ticket respelled _ None (Some 0) utf_8 eq_refl
              (Hp alice_ticket H1) (Hp respelled H2)) as (Hsame & _).
  pose proof (alice_validate demo_factory demo_state 0 eq_refl eq_refl) as Hv.
  change (1000000000 <=? 0) with false in Hv. cbv beta iota in Hv.
  eexists. exact (proj1 (Hsame _ _) Hv).
Defined.

(** ** The range of a parsed expiry *)

Lemma hexval_range c d : hexval c = Some d -> 0 <= d < 16.
Proof.
  unfold hexval, in_range.
  destruct ((48 <=? c) && (c <=? 57)) eqn:E1;
    [intros Hd; injection Hd as Hd; bool_hyps; lia|].
  destruct ((97 <=? c) && (c <=? 102)) eqn:E2;
    [intros Hd; injection Hd as Hd; bool_hyps; lia|].
  destruct ((65 <=? c) && (c <=? 70)) eqn:E3;
    [intros Hd; injection Hd as Hd; bool_hyps; lia|discriminate].
Qed.

Lemma scan_bound s : forall b acc n v n' rest,
  scan_digits b acc n s = Some (v, n', rest) ->
  0 <= acc < 16 ^ Z.of_nat n ->
  0 <= v < 16 ^ Z.of_nat n' /\ (n' <= n + length s)%nat.
Proof.
  induction s as [|c s IH]; intros b acc n v n' rest; cbn [scan_digits length].
  - destruct b; [discriminate|]. intros [= <- <- _] H. split; [assumption|lia].
  - destruct (c =? 95).
    + destruct b; [discriminate|]. intros Hs Hacc.
      destruct (IH _ _ _ _ _ _ Hs Hacc). split; [assumption|lia].
    + destruct (hexval c) as [d|] eqn:Hd.
      * intros Hs Hacc. apply hexval_range in Hd.
        destruct (IH _ _ _ _ _ _ Hs) as [Hv Hn]; [|split; [assumption|lia]].
        rewrite Nat2Z.inj_succ, Z.pow_succ_r by lia. lia.
      * destruct b; [discriminate|]. intros [= <- <- _] H.
        split; [assumption|lia].
Qed.

Lemma skip_space_length s : (length (skip_space s) <= length s)%nat.
Proof.
  induction s as [|c s IH]; cbn [skip_space length]; [lia|].
  destruct (py_isspace c); cbn [length]; lia.
Qed.

Lemma strip_0x_length s : (length (strip_0x s) <= length s)%nat.
Proof.
  unfold strip_0x. destruct s as [|z [|x r]]; try lia.
  destruct (_ && _); [|lia].
  destruct r as [|u r']; cbn [length]; [lia|].
  destruct (u =? 95); cbn [length]; lia.
Qed.

(** What [int(_, 16)] can return for a text of a given length. *)
Lemma int16_bound s v :
  int16 s = Some v ->
  - 16 ^ Z.of_nat (length s - 1) < v < 16 ^ Z.of_nat (length s).
Proof.
  unfold int16.
  pose proof (skip_space_length (map to_ascii_numeral s)) as Hsk.
  rewrite length_map in Hsk.
  destruct (strip_sign _) as [neg s2] eqn:Hsign.
  assert (Hs2 : (length s2 <= length s)%nat
                /\ (neg = true -> (length s2 <= length s - 1)%nat)).
  { unfold strip_sign in Hsign.
    destruct (skip_space _) as [|c r]; cbn [length] in *.
    - injection Hsign as <- <-. cbn. split; [lia|discriminate].
    - destruct (c =? 43); [injection Hsign as <- <-; split; [lia|discriminate]|].
      destruct (c =? 45); injection Hsign as <- <-; cbn [length].
      + split; intros; lia.
      + split; [lia|discriminate]. }
  destruct Hs2 as [Hle Hneg].
  pose proof (strip_0x_length s2) as H0x.
  destruct (strip_0x s2) as [|c s3] eqn:Hs3; [discriminate|].
  destruct (c =? 95); [discriminate|].
  destruct (scan_digits false 0 0 (c :: s3)) as [[[v' n] rest]|] eqn:Hscan;
    [|discriminate].
  destruct (n =? 0)%nat; [discriminate|].
  destruct (skip_space rest); [|discriminate].
  intros [= <-].
  destruct (scan_bound _ _ _ _ _ _ _ Hscan ltac:(cbn; lia)) as [Hv Hn].
  cbn [Nat.add] in Hn.
  assert (Hpow : forall a b : nat, (a <= b)%nat -> 16 ^ Z.of_nat a <= 16 ^ Z.of_nat b)
    by (intros; apply Z.pow_le_mono_r; lia).
  assert (0 < 16 ^ Z.of_nat (length s - 1)) by (apply Z.pow_pos_nonneg; lia).
  destruct neg.
  - specialize (Hneg eq_refl).
    pose proof (Hpow n (length s - 1)%nat ltac:(lia)).
    pose proof (Hpow (length s - 1)%nat (length s) ltac:(lia)). lia.
  - pose proof (Hpow n (length s) ltac:(lia)). lia.
Qed.

(** X5.  The expiry [parse] returns is the value of at most eight
    hexadecimal digits, or of seven after a minus sign: it lies strictly
    between [- 2 ^ 28] and [2 ^ 32], and it can be negative. *)
Theorem parse_valid_until_range self st ticket parts st' :
  parse self ticket st = (Ok parts, st') ->
  - 268435456 < valid_until parts < 4294967296.
Proof.
  intros Hp.
  destruct (heap st !! _hash self) as [o|] eqn:Ho.
  - rewrite (parse_run _ _ _ _ Ho) in Hp. injection Hp as Hp _.
    unfold parse_text in Hp.
    destruct (Nat.ltb_spec (length ticket) (digest_size (algorithm o) * 2 + 8))
      as [|Hlen]; [discriminate|].
    destruct (int16 _) as [v|] eqn:Hv; [|discriminate].
    apply int16_bound in Hv.
    assert (Hl : length (slice (digest_size (algorithm o) * 2)
                           (digest_size (algorithm o) * 2 + 8) ticket) = 8%nat).
    { unfold slice. rewrite length_take, length_drop. lia. }
    rewrite Hl in Hv.
    destruct (split _ _) as [|p0 [|p1 [|p2 [|p3 ps]]]]; try discriminate.
    injection Hp as <-. cbn [valid_until].
    change (16 ^ Z.of_nat (8 - 1)) with 268435456 in Hv.
    change (16 ^ Z.of_nat 8) with 4294967296 in Hv. exact Hv.
  - revert Hp. unfold parse, _min_ticket_size, hash_digest_size.
    monad_unfold. rewrite Ho. discriminate.
Qed.

Lemma parse_valid_until_range_witness :
  parse demo_factory signed_ticket demo_state
  = (Ok {| digest := repeat 48 128; user_id := []; tokens := [];
           user_data := []; valid_until := -1 |}, demo_state)
  /\ - 268435456 < -1 < 4294967296.
Proof.
  assert (Hp : parse demo_factory signed_ticket demo_state
               = (Ok {| digest := repeat 48 128; user_id := []; tokens := [];
                        user_data := []; valid_until := -1 |}, demo_state)).
  { rewrite (parse_run demo_factory _ demo_hash) by reflexivity. f_equal. }
  exact (conj Hp (parse_valid_until_range demo_factory demo_state
                    signed_ticket _ _ Hp)).
Defined.

(** ** The outcomes of [new] and [validate] *)

Lemma prepare_utf8_cases (uid : str) (toks : list str) (ud : str) v ip :
  (scalar_texts uid toks ud = false ->
   prepare uid toks ud v ip utf_8 = Raise UnicodeEncodeError)
  /\ (scalar_texts uid toks ud = true -> ~ 0 <= v < 4294967296 ->
      prepare uid toks ud v ip utf_8 = Raise struct_error)
  /\ (scalar_texts uid toks ud = true -> 0 <= v < 4294967296 ->
      exists p, prepare uid toks ud v ip utf_8 = Ok p).
Proof.
  unfold scalar_texts. split; [|split].
  - intros Hs. unfold prepare.
    destruct (quote uid) as [qid|] eqn:H1; [|reflexivity].
    destruct (mapM quote toks) as [qs|] eqn:H2; [|reflexivity].
    destruct (quote ud) as [qud|] eqn:H3; [|reflexivity].
    exfalso.
    rewrite (proj2 (quote_Some uid)), (proj2 (mapM_quote_Some toks)),
      (proj2 (quote_Some ud)) in Hs by eauto.
    discriminate.
  - intros Hs Hv. apply andb_true_iff in Hs as [Hs H3].
    apply andb_true_iff in Hs as [H1 H2].
    apply quote_Some in H1 as [qid H1]. apply mapM_quote_Some in H2 as [qs H2].
    apply quote_Some in H3 as [qud H3].
    unfold prepare. rewrite H1, H2, H3.
    destruct (pack_I_be v) as [pk|] eqn:Hp; [|reflexivity].
    exfalso. apply Hv, pack_I_be_Some. eauto.
  - intros Hs Hv. apply andb_true_iff in Hs as [Hs H3].
    apply andb_true_iff in Hs as [H1 H2]. now apply prepare_total.
Qed.

(** X6.  With the UTF-8 encoding, [new] has three outcomes, decided in this
    order: a text with a lone surrogate raises [UnicodeEncodeError], also
    when the expiry is out of range; otherwise an expiry outside the unsigned
    32-bit range raises [struct.error]; otherwise a ticket is returned.  In
    both failures the store is left as it was. *)
Theorem new_outcomes self st o (uid : str) toks ud vu ip :
  heap st !! _hash self = Some o ->
  let texts_ok := scalar_texts uid (default [] toks) (default [] ud) in
  let v := expiry vu st in
  (texts_ok = false ->
   new self uid toks ud vu ip utf_8 st = (Raise UnicodeEncodeError, st))
  /\ (texts_ok = true -> ~ 0 <= v < 4294967296 ->
      new self uid toks ud vu ip utf_8 st = (Raise struct_error, st))
  /\ (texts_ok = true -> 0 <= v < 4294967296 ->
      exists t st1, new self uid toks ud vu ip utf_8 st = (Ok t, st1)).
Proof.
  intros Ho texts_ok v. rewrite (new_run _ _ _ _ _ _ _ _ _ Ho). fold v.
  destruct (prepare_utf8_cases uid (default [] toks) (default [] ud) v
              (default _DEFAULT_IP ip)) as (H1 & H2 & H3).
  fold texts_ok in H1, H2, H3. split; [|split].
  - intros Hs. now rewrite (H1 Hs).
  - intros Hs Hv. now rewrite (H2 Hs Hv).
  - intros Hs Hv. destruct (H3 Hs Hv) as [p ->]. eauto.
Qed.

Lemma new_outcomes_witness :
  new demo_factory [55296] None None (Some (-5)) None utf_8 demo_state
  = (Raise UnicodeEncodeError, demo_state)
  /\ new demo_factory (lit "alice") (Some [[56320]]) None (Some 10) None utf_8
       demo_state
     = (Raise UnicodeEncodeError, demo_state)
  /\ new demo_factory (lit "alice") None None (Some (-5)) None utf_8 demo_state
     = (Raise struct_error, demo_state).
Proof.
  destruct (new_outcomes demo_factory demo_state demo_hash
              [55296] None None (Some (-5)) None eq_refl) as (H1 & _).
  destruct (new_outcomes demo_factory demo_state demo_hash
              (lit "alice") (Some [[56320]]) None (Some 10) None eq_refl)
    as (H2 & _).
  destruct (new_outcomes demo_factory demo_state demo_hash
              (lit "alice") None None (Some (-5)) None eq_refl)
    as (_ & H3 & _).
  exact (conj (H1 eq_refl) (conj (H2 eq_refl) (H3 eq_refl ltac:(cbn; lia)))).
Defined.

(** X7.  For a ticket that parses, with the UTF-8 encoding: [validate] raises
    [UnicodeEncodeError] when a parsed text holds a lone surrogate, and
    [struct.error] when the parsed expiry is negative, both before any digest
    is computed; in every other case it returns the parsed fields or raises
    [TicketDigestError] or [TicketExpired]. *)
Theorem validate_outcomes self st o ticket parts ip now :
  heap st !! _hash self = Some o ->
  parse self ticket st = (Ok parts, st) ->
  (scalar_fields parts = false ->
   validate self ticket ip now utf_8 st = (Raise UnicodeEncodeError, st))
  /\ (scalar_fields parts = true -> valid_until parts < 0 ->
      validate self ticket ip now utf_8 st = (Raise struct_error, st))
  /\ (scalar_fields parts = true -> 0 <= valid_until parts ->
      exists st',
        validate self ticket ip now utf_8 st = (Ok parts, st')
        \/ validate self ticket ip now utf_8 st
           = (Raise (Ticket (TicketDigestError ticket)), st')
        \/ validate self ticket ip now utf_8 st
           = (Raise (Ticket (TicketExpired ticket)), st')).
Proof.
  intros Ho Hp.
  pose proof (parse_valid_until_range _ _ _ _ _ Hp) as Hrange.
  rewrite (parse_run _ _ _ _ Ho) in Hp. injection Hp as Hp.
  rewrite (validate_run _ _ _ _ _ _ _ Ho), Hp.
  rewrite (new_run _ _ _ _ _ _ _ _ _ Ho). cbn [default id expiry].
  destruct (prepare_utf8_cases (user_id parts) (tokens parts) (user_data parts)
              (valid_until parts) (default _DEFAULT_IP ip)) as (H1 & H2 & H3).
  fold (scalar_fields parts) in H1, H2, H3. split; [|split].
  - intros Hs. now rewrite (H1 Hs).
  - intros Hs Hv. now rewrite (H2 Hs ltac:(lia)).
  - intros Hs Hv. destruct (H3 Hs ltac:(lia)) as [p ->].
    eexists. destruct (negb _); [right; left; reflexivity|].
    destruct (_ <=? _); [right; right; reflexivity|left; reflexivity].
Qed.

Lemma validate_outcomes_witness :
  validate demo_factory signed_ticket None None utf_8 demo_state
  = (Raise struct_error, demo_state).
Proof.
  assert (Hp : parse demo_factory signed_ticket demo_state
               = (Ok {| digest := repeat 48 128; user_id := []; tokens := [];
                        user_data := []; valid_until := -1 |}, demo_state)).
  { rewrite (parse_run demo_factory _ demo_hash) by reflexivity. f_equal. }
  destruct (validate_outcomes demo_factory demo_state demo_hash signed_ticket
              _ None None eq_refl Hp) as (_ & H2 & _).
  exact (H2 eq_refl ltac:(cbn; lia)).
Defined.

(** ** The alphabet of a ticket *)

Lemma forallb_impl (P Q : Z -> bool) (s : str) :
  (forall c, P c = true -> Q c = true) ->
  forallb P s = true -> forallb Q s = true.
Proof.
  intros HPQ. induction s as [|c s IH]; cbn [forallb]; [reflexivity|].
  intros H. apply andb_true_iff in H as [Hc Hs].
  now rewrite (HPQ _ Hc), (IH Hs).
Qed.

Lemma is_ticket_char_range c :
  is_ticket_char c = true ->
  33 <= c <= 126 /\ c <> 34 /\ c <> 59 /\ c <> 92.
Proof.
  unfold is_ticket_char, is_lower_hex, is_pchar, always_safe, in_range, mem.
  change (ord "!") with 33. change (ord ",") with 44.
  change (lit "_.-~") with [95; 46; 45; 126]. cbn [existsb].
  intros H.
  repeat match type of H with
    | _ || _ = true => apply orb_true_iff in H as [H|H]
    end; bool_hyps; try discriminate; lia.
Qed.

(** X8.  Every character of a ticket [new] returns is a lower-case
    hexadecimal digit, a letter, a digit, one of [_ . - ~ / %], or one of the
    separators [!] and [,]: printable ASCII, with no blank, no double quote,
    no semicolon and no backslash. *)
Theorem new_ticket_characters self st o uid toks ud vu ip enc t st1 :
  heap st !! _hash self = Some o ->
  alg_ok (algorithm o) ->
  new self uid toks ud vu ip enc st = (Ok t, st1) ->
  forallb is_ticket_char t = true
  /\ (forall c, In c t -> 33 <= c <= 126 /\ c <> 34 /\ c <> 59 /\ c <> 92).
Proof.
  intros Ho Hok Hnew.
  assert (Hall : forallb is_ticket_char t = true).
  { destruct (new_Ok _ _ _ _ _ _ _ _ _ _ _ Ho Hnew) as (p & Hp & -> & _).
    destruct (prepare_Ok _ _ _ _ _ _ _ Hp)
      as (qid & qs & qud & d1 & Hqid & Hqs & Hqud & Hv & _ & ->).
    rewrite ticket_text_eq, (format_08x_u32 _ Hv).
    cbn [p_user_id p_token_str p_user_str p_data0 p_data1].
    assert (Hhex : forall s, forallb is_lower_hex s = true ->
                             forallb is_ticket_char s = true).
    { intros s. apply forallb_impl. intros c Hc. unfold is_ticket_char.
      now rewrite Hc. }
    assert (Hpc : forall s, forallb is_pchar s = true ->
                            forallb is_ticket_char s = true).
    { intros s. apply forallb_impl. intros c Hc. unfold is_ticket_char.
      rewrite Hc. now rewrite orb_true_r. }
    unfold hexmac.
    rewrite !forallb_app. cbn [forallb]. rewrite !forallb_app. cbn [forallb].
    rewrite (Hhex _ (hexlify_lower _ (proj2 (Hok _)))).
    rewrite (Hhex _ (hex_fixed_lower _ _)).
    rewrite (Hpc _ (quote_chars _ _ Hqid)), (Hpc _ (quote_chars _ _ Hqud)).
    rewrite (forallb_join is_ticket_char [ord ","] qs eq_refl).
    - reflexivity.
    - pose proof (mapM_quote_chars _ _ Hqs) as Hall. clear -Hall Hpc.
      induction qs as [|q qs IH]; cbn [forallb] in *; [reflexivity|].
      apply andb_true_iff in Hall as [Hq Hqs].
      now rewrite (Hpc _ Hq), (IH Hqs). }
  split; [exact Hall|].
  intros c Hc. apply is_ticket_char_range.
  rewrite forallb_forall in Hall. now apply Hall.
Qed.

Lemma new_ticket_characters_witness :
  forallb is_ticket_char alice_ticket = true.
Proof.
  exact (proj1 (new_ticket_characters demo_factory demo_state demo_hash
                  _ _ _ _ _ _ _ _ eq_refl sha512_ok
                  (alice_new demo_factory demo_state eq_refl eq_refl))).
Defined.

(** ** What is digested determines the fields *)

Lemma to_bytes_be_S n v :
  to_bytes_be (S n) v = (v / 256 ^ Z.of_nat n) mod 256 :: to_bytes_be n v.
Proof. unfold to_bytes_be. rewrite seq_S, rev_app_distr. reflexivity. Qed.

Lemma fold_bytes_shift l acc :
  fold_left (fun a b => 256 * a + b) l acc
  = acc * 256 ^ Z.of_nat (length l) + Sha512.from_bytes_be l.
Proof.
  unfold Sha512.from_bytes_be. revert acc.
  induction l as [|b l IH]; intros acc; cbn [fold_left length].
  - cbn. lia.
  - rewrite IH, (IH (256 * 0 + b)), Nat2Z.inj_succ, Z.pow_succ_r by lia. ring.
Qed.

Lemma from_to_bytes_be n v :
  0 <= v -> Sha512.from_bytes_be (to_bytes_be n v) = v mod 256 ^ Z.of_nat n.
Proof.
  intros Hv. induction n as [|n IH].
  - cbn. now rewrite Z.mod_1_r.
  - rewrite to_bytes_be_S. unfold Sha512.from_bytes_be. cbn [fold_left].
    rewrite fold_bytes_shift, IH, length_to_bytes_be.
    replace (256 ^ Z.of_nat (S n)) with (256 ^ Z.of_nat n * 256)
      by (rewrite Nat2Z.inj_succ, Z.pow_succ_r; lia).
    rewrite Z.rem_mul_r by lia. ring.
Qed.

Lemma to_bytes_be_inj n a b :
  0 <= a < 256 ^ Z.of_nat n -> 0 <= b < 256 ^ Z.of_nat n ->
  to_bytes_be n a = to_bytes_be n b -> a = b.
Proof.
  intros Ha Hb E. apply (f_equal Sha512.from_bytes_be) in E.
  rewrite !from_to_bytes_be in E by lia.
  now rewrite !Z.mod_small in E by lia.
Qed.

(** The token field read back: the tokens, the single empty token as none. *)
Lemma tokens_read (toks qs : list str) :
  mapM quote toks = Some qs ->
  match join [ord ","] qs with
  | [] => []
  | _ :: _ => map unquote (split (ord ",") (join [ord ","] qs))
  end = norm_tokens toks.
Proof.
  intros Hq.
  destruct toks as [|[|c t] [|t' ts]];
    try (now rewrite (tokens_roundtrip _ _ Hq)).
  cbn in Hq. injection Hq as <-. reflexivity.
Qed.

Lemma packed_inj a a' :
  ip_ok a = true -> ip_ok a' = true ->
  version a = version a' -> packed a = packed a' -> a = a'.
Proof.
  destruct a as [n|n], a' as [n'|n']; cbn [ip_ok version packed];
    intros Ha Ha' Hv Hp; try discriminate; bool_hyps; f_equal.
  - apply (to_bytes_be_inj 4); [change (256 ^ Z.of_nat 4) with (2 ^ 32) ..|];
      (lia || assumption).
  - apply (to_bytes_be_inj 16); [change (256 ^ Z.of_nat 16) with (2 ^ 128) ..|];
      (lia || assumption).
Qed.

Lemma prepare_inj (uid uid' : str) (toks toks' : list str) (ud ud' : str)
    v v' ip ip' (secret : bytes) p p' :
  prepare uid toks ud v ip utf_8 = Ok p ->
  prepare uid' toks' ud' v' ip' utf_8 = Ok p' ->
  ip_ok ip = true -> ip_ok ip' = true ->
  (p_data0 p ++ secret) ++ p_data1 p = (p_data0 p' ++ secret) ++ p_data1 p' ->
  uid = uid' /\ norm_tokens toks = norm_tokens toks' /\ ud = ud'
  /\ v = v' /\ ip = ip'.
Proof.
  intros Hp Hp' Hip Hip' E.
  destruct (prepare_Ok _ _ _ _ _ _ _ Hp)
    as (qid & qs & qud & d1 & Hqid & Hqs & Hqud & Hv & Hd1 & ->).
  destruct (prepare_Ok _ _ _ _ _ _ _ Hp')
    as (qid' & qs' & qud' & d1' & Hqid' & Hqs' & Hqud' & Hv' & Hd1' & ->).
  cbn [p_data0 p_data1] in E.
  (* the version byte, then the two parts of data0 *)
  assert (Hver : version ip = version ip').
  { rewrite <- !app_assoc in E. apply app_inj_1 in E as [E _]; [|reflexivity].
    now injection E. }
  assert (Hlen : length (packed ip) = length (packed ip')).
  { destruct ip, ip'; cbn [version] in Hver; try discriminate;
      cbn [packed]; now rewrite !length_to_bytes_be. }
  rewrite <- !app_assoc in E. apply app_inj_1 in E as [_ E]; [|reflexivity].
  apply app_inj_1 in E as [Hpacked E]; [|assumption].
  apply app_inj_1 in E as [Hpk E]; [|now rewrite !length_to_bytes_be].
  apply app_inv_head in E. subst d1'.
  assert (v = v')
    by (apply (to_bytes_be_inj 4);
        [change (256 ^ Z.of_nat 4) with 4294967296 ..|]; (lia || assumption)).
  assert (ip = ip') by now apply packed_inj.
  (* the payload *)
  unfold utf_8 in Hd1, Hd1'.
  apply utf8_decode_encode in Hd1, Hd1'. rewrite Hd1 in Hd1'.
  pose proof (quote_chars _ _ Hqid) as Cid.
  pose proof (quote_chars _ _ Hqud) as Cud.
  pose proof (mapM_quote_chars _ _ Hqs) as Cqs.
  pose proof (quote_chars _ _ Hqid') as Cid'.
  pose proof (quote_chars _ _ Hqud') as Cud'.
  pose proof (mapM_quote_chars _ _ Hqs') as Cqs'.
  assert (Hnul : forall (a : str) (bs : list str) (c : str),
             forallb is_pchar a = true -> forallb (forallb is_pchar) bs = true ->
             forallb is_pchar c = true ->
             split 0 (join [0] [a; join [ord ","] bs; c])
             = [a; join [ord ","] bs; c]).
  { intros a bs c Ha Hbs Hc. apply split_join. cbn [forallb].
    rewrite (pchars_no_delim a 0), (pchars_no_delim c 0) by (tauto || assumption).
    change (ord ",") with 44.
    rewrite mem_join;
      [reflexivity|discriminate|apply pchars_no_delims; [tauto|assumption]]. }
  apply (f_equal (split 0)) in Hd1'.
  rewrite (Hnul _ _ _ Cid Cqs Cud), (Hnul _ _ _ Cid' Cqs' Cud') in Hd1'.
  injection Hd1' as E1 E2 E3. subst qid' qud'.
  repeat split; try assumption.
  - rewrite <- (unquote_quote _ _ Hqid). now apply unquote_quote.
  - rewrite <- (tokens_read _ _ Hqs), <- (tokens_read _ _ Hqs'), E2.
    reflexivity.
  - rewrite <- (unquote_quote _ _ Hqud). now apply unquote_quote.
Qed.

(** X9.  The bytes [new] feeds to the hash determine the fields: if two
    calls with the UTF-8 encoding and addresses in range, from the same
    store, leave the same objects in the store, then they were given the same
    user id, user data, expiry and address, and the same tokens (the single
    empty token counting as none). *)
Theorem digest_input_unambiguous self st o
    (uid uid' : str) toks toks' ud ud' vu vu' ip ip' t t' st1 st1' :
  heap st !! _hash self = Some o ->
  new self uid toks ud vu ip utf_8 st = (Ok t, st1) ->
  new self uid' toks' ud' vu' ip' utf_8 st = (Ok t', st1') ->
  ip_ok (default _DEFAULT_IP ip) = true ->
  ip_ok (default _DEFAULT_IP ip') = true ->
  heap st1 = heap st1' ->
  uid = uid'
  /\ norm_tokens (default [] toks) = norm_tokens (default [] toks')
  /\ default [] ud = default [] ud'
  /\ expiry vu st = expiry vu' st
  /\ default _DEFAULT_IP ip = default _DEFAULT_IP ip'.
Proof.
  intros Ho Hnew Hnew' Hip Hip' Hheap.
  destruct (new_Ok _ _ _ _ _ _ _ _ _ _ _ Ho Hnew) as (p & Hp & _ & ->).
  destruct (new_Ok _ _ _ _ _ _ _ _ _ _ _ Ho Hnew') as (p' & Hp' & _ & ->).
  cbn [heap extend set_heap] in Hheap. apply app_inv_head in Hheap.
  unfold scratch in Hheap. injection Hheap as Hfed _.
  unfold fed0 in Hfed. apply app_inv_head in Hfed.
  exact (prepare_inj _ _ _ _ _ _ _ _ _ _ _ _ _ Hp Hp' Hip Hip' Hfed).
Qed.

Lemma digest_input_unambiguous_witness :
  lit "alice" = lit "alice"
  /\ norm_tokens [] = norm_tokens []
  /\ (@nil Z) = []
  /\ 1000000000 = 1000000000
  /\ _DEFAULT_IP = _DEFAULT_IP.
Proof.
  pose proof (alice_new demo_factory demo_state eq_refl eq_refl) as Hnew.
  exact (digest_input_unambiguous demo_factory demo_state demo_hash
           (lit "alice") (lit "alice") None None None None
           (Some 1000000000) (Some 1000000000) None None _ _ _ _
           eq_refl Hnew Hnew eq_refl eq_refl eq_refl).
Defined.

(** ** Another address, another secret *)

(** X10.  When an issued ticket is validated with another address, or by a
    factory holding another secret, the digest compared with the ticket's is
    the one that factory issues for the same fields and that address:
    [validate] raises [TicketDigestError] when the two digests differ, and
    treats the ticket as its own when they are equal. *)
Theorem validate_other_binding self st o uid toks ud vu ip enc t st1
    self' st' ip' now :
  heap st !! _hash self = Some o ->
  alg_ok (algorithm o) ->
  new self uid toks ud vu ip enc st = (Ok t, st1) ->
  heap st' !! _hash self' = Some o ->
  let n := (digest_size (algorithm o) * 2)%nat in
  let v := expiry vu st in
  (exists t' st1', new self' uid toks ud (Some v) ip' enc st' = (Ok t', st1'))
  /\ (forall t' st1',
         new self' uid toks ud (Some v) ip' enc st' = (Ok t', st1') ->
         (slice_to n t' <> slice_to n t ->
          validate self' t ip' now enc st'
          = (Raise (Ticket (TicketDigestError t)), st1'))
         /\ (slice_to n t' = slice_to n t ->
             validate self' t ip' now enc st'
             = (if v <=? default (clock st') now
                then Raise (Ticket (TicketExpired t))
                else Ok {| digest := slice_to n t; user_id := uid;
                           tokens := norm_tokens (default [] toks);
                           user_data := default [] ud; valid_until := v |},
                st1'))).
Proof.
  intros Ho Hok Hnew Ho'. cbv zeta.
  destruct (new_Ok _ _ _ _ _ _ _ _ _ _ _ Ho Hnew) as (p & Hp & -> & _).
  destruct (prepare_Ok _ _ _ _ _ _ _ Hp)
    as (qid & qs & qud & d1 & Hqid & Hqs & Hqud & Hv & Hd1 & Ep).
  split.
  - rewrite (new_run _ _ _ _ _ _ _ _ _ Ho'). cbn [expiry].
    unfold prepare. rewrite Hqid, Hqs, Hqud, Hd1.
    destruct (proj1 (pack_I_be_Some _) Hv) as [pk ->]. eauto.
  - intros t' st1' Hnew'.
    destruct (new_Ok _ _ _ _ _ _ _ _ _ _ _ Ho' Hnew') as (p' & Hp' & -> & ->).
    cbn [expiry] in Hp'.
    rewrite (validate_run _ _ _ _ _ _ _ Ho').
    rewrite <- prepare_norm in Hp, Hp'.
    rewrite (parse_ticket_text _ _ _ _ _ _ _ _ _ Hok Hp (norm_tokens_ne _)).
    cbn [user_id tokens user_data valid_until digest].
    rewrite (new_run _ _ _ _ _ _ _ _ _ Ho'). cbn [default id expiry].
    rewrite Hp', !(digest_prefix _ _ _ _ Hok). split; intros Hd.
    + now rewrite str_eqb_neq.
    + rewrite Hd, str_eqb_refl. cbn [negb]. now destruct (_ <=? _).
Qed.

Lemma validate_other_binding_witness :
  let t := ticket_text (lit "s3cret") demo_hash 1000000000 (bound_pieces 1) in
  exists st1 st2,
    new demo_factory (lit "alice") None None (Some 1000000000)
      (Some (IPv4Address 167772161)) utf_8 demo_state = (Ok t, st1)
    /\ validate demo_factory t (Some (IPv4Address 167772162)) (Some 0) utf_8
         demo_state
       = (Raise (Ticket (TicketDigestError t)), st2).
Proof.
  intros t.
  assert (Hp : forall last,
             last = 1 \/ last = 2 ->
             prepare (lit "alice") [] [] 1000000000
               (IPv4Address (167772160 + last)) utf_8
             = Ok (bound_pieces last))
    by (intros last [-> | ->]; vm_compute; reflexivity).
  assert (Hnew : forall last,
             last = 1 \/ last = 2 ->
             new demo_factory (lit "alice") None None (Some 1000000000)
               (Some (IPv4Address (167772160 + last))) utf_8 demo_state
             = (Ok (ticket_text (lit "s3cret") demo_hash 1000000000
                      (bound_pieces last)),
                extend (scratch (lit "s3cret") demo_hash
                          (p_data0 (bound_pieces last))
                          (p_data1 (bound_pieces last))) demo_state)).
  { intros last Hl.
    rewrite (new_run demo_factory demo_state demo_hash) by reflexivity.
    cbn [default id expiry]. now rewrite (Hp last Hl). }
  pose proof (Hnew 1 (or_introl eq_refl)) as Hnew1.
  pose proof (Hnew 2 (or_intror eq_refl)) as Hnew2.
  destruct (proj2 (validate_other_binding demo_factory demo_state demo_hash
                     (lit "alice") None None (Some 1000000000)
                     (Some (IPv4Address (167772160 + 1))) utf_8 _ _
                     demo_factory demo_state
                     (Some (IPv4Address (167772160 + 2))) (Some 0)
                     eq_refl sha512_ok Hnew1 eq_refl) _ _ Hnew2)
    as [Hdiff _].
  eexists _, _. refine (conj Hnew1 (Hdiff _)).
  cbn [demo_hash algorithm sha512 digest_size].
  vm_compute. discriminate.
Defined.

(** ** What [parse] returns can be issued again *)

Lemma decode_nonempty bs : bs <> [] -> utf8_decode_replace bs <> [].
Proof.
  destruct bs as [|b1 t1]; [contradiction|]. intros _.
  cbn [utf8_decode_replace].
  repeat match goal with
    | |- context [if ?c then _ else _] => destruct c
    | |- context [match ?l with [] => _ | _ :: _ => _ end] => destruct l
    end; discriminate.
Qed.

Lemma unquote_item_nonempty item : unquote_item item <> [].
Proof.
  unfold unquote_item. destruct item as [|a [|b rest]]; try discriminate.
  destruct (hexval a), (hexval b); discriminate.
Qed.

Lemma utb_nonempty s : s <> [] -> unquote_to_bytes s <> [].
Proof.
  destruct s as [|c r]; [contradiction|]. intros _.
  unfold unquote_to_bytes. cbn [split].
  destruct (c =? 37).
  - destruct (split 37 r) as [|item items] eqn:E;
      [now apply split_nonempty in E|].
    cbn [app map concat]. pose proof (unquote_item_nonempty item).
    destruct (unquote_item item); [contradiction|discriminate].
  - destruct (split 37 r); discriminate.
Qed.

Lemma unquote_runs_nil run s : unquote_runs run s = [] -> run = [] /\ s = [].
Proof.
  revert run. induction s as [|c s IH]; intros run; cbn [unquote_runs].
  - intros H. split; [|reflexivity].
    destruct run as [|x run]; [reflexivity|]. exfalso.
    apply (decode_nonempty (unquote_to_bytes (x :: run))); [|exact H].
    now apply utb_nonempty.
  - destruct (is_ascii c).
    + intros H. apply IH in H as [H _]. now destruct run.
    + intros H. now destruct (unquote_run run).
Qed.

(** Only the empty text unquotes to the empty text. *)
Lemma unquote_nil s : unquote s = [] -> s = [].
Proof.
  unfold unquote. destruct (negb (mem 37 s)); [trivial|].
  intros H. now apply unquote_runs_nil in H.
Qed.

Lemma split_single_nil sep s : split sep s = [[]] -> s = [].
Proof.
  destruct s as [|c s]; [reflexivity|]. cbn [split].
  destruct (c =? sep).
  - intros [= E]. now apply split_nonempty in E.
  - destruct (split sep s); discriminate.
Qed.

(** X11.  [parse] never returns the single empty token, the one token
    sequence a ticket cannot carry.  So what it returns can be issued again:
    when the parsed texts hold no surrogate and the parsed expiry is not
    negative, [new] on the parsed fields returns a ticket, and parsing that
    ticket gives the same user id, tokens, user data and expiry. *)
Theorem parse_then_new_then_parse self st o ticket parts ip :
  heap st !! _hash self = Some o ->
  alg_ok (algorithm o) ->
  parse self ticket st = (Ok parts, st) ->
  tokens parts <> [[]]
  /\ (scalar_fields parts = true -> 0 <= valid_until parts ->
      exists t' st1 d,
        new self (user_id parts) (Some (tokens parts)) (Some (user_data parts))
          (Some (valid_until parts)) ip utf_8 st = (Ok t', st1)
        /\ parse self t' st1
           = (Ok {| digest := d; user_id := user_id parts;
                    tokens := tokens parts; user_data := user_data parts;
                    valid_until := valid_until parts |}, st1)).
Proof.
  intros Ho Hok Hparse.
  pose proof (parse_valid_until_range _ _ _ _ _ Hparse) as Hrange.
  assert (Hne : tokens parts <> [[]]).
  { rewrite (parse_run _ _ _ _ Ho) in Hparse. injection Hparse as Hparse.
    unfold parse_text in Hparse.
    destruct (_ <? _)%nat; [discriminate|].
    destruct (int16 _); [|discriminate].
    destruct (split _ _) as [|p0 [|p1 [|p2 [|p3 ps]]]]; try discriminate.
    injection Hparse as <-. cbn [tokens].
    destruct p1 as [|c p1]; [discriminate|].
    intros E.
    destruct (split (ord ",") (c :: p1)) as [|x [|y xs]] eqn:Hs;
      try discriminate E.
    cbn [map] in E. injection E as E. apply unquote_nil in E. subst x.
    now apply split_single_nil in Hs. }
  split; [exact Hne|].
  intros Hs Hv. unfold scalar_fields, scalar_texts in Hs.
  apply andb_true_iff in Hs as [Hs H3]. apply andb_true_iff in Hs as [H1 H2].
  destruct (prepare_total (user_id parts) (tokens parts) (user_data parts)
              (valid_until parts) (default _DEFAULT_IP ip) H1 H2 H3
              ltac:(lia)) as [p Hp].
  exists (ticket_text (_secret self) o (valid_until parts) p),
    (extend (scratch (_secret self) o (p_data0 p) (p_data1 p)) st),
    (hexmac (_secret self) o (p_data0 p) (p_data1 p)).
  split.
  - rewrite (new_run _ _ _ _ _ _ _ _ _ Ho). cbn [default id expiry].
    now rewrite Hp.
  - rewrite (parse_run _ _ o) by now apply extend_lookup.
    now rewrite (parse_ticket_text _ _ _ _ _ _ _ _ _ Hok Hp Hne).
Qed.

Lemma parse_then_new_then_parse_witness :
  let respelled := slice_to 128 alice_ticket ++ lit "3B9ACA00%61lice!!" in
  exists t' st1 d,
    new demo_factory (lit "alice") (Some []) (Some []) (Some 1000000000) None
      utf_8 demo_state = (Ok t', st1)
    /\ parse demo_factory t' st1
       = (Ok {| digest := d; user_id := lit "alice"; tokens := [];
                user_data := []; valid_until := 1000000000 |}, st1).
Proof.
  intros respelled.
  assert (H2 : parse_text 64 respelled
               = Ok {| digest := slice_to 128 alice_ticket;
                       user_id := lit "alice"; tokens := []; user_data := [];
                       valid_until := 1000000000 |})
    by (vm_compute; reflexivity).
  assert (Hp : parse demo_factory respelled demo_state
               = (Ok {| digest := slice_to 128 alice_ticket;
                        user_id := lit "alice"; tokens := []; user_data := [];
                        valid_until := 1000000000 |}, demo_state)).
  { rewrite (parse_run demo_factory _ demo_hash) by reflexivity.
    cbn [algorithm demo_hash sha512 digest_size]. now rewrite H2. }
  exact (proj2 (parse_then_new_then_parse demo_factory demo_state demo_hash
                  respelled _ None eq_refl sha512_ok Hp)
           eq_refl ltac:(cbn; lia)).
Defined.

(** ** Building another factory *)

(** X12.  Building a factory allocates one new, empty hash object and leaves
    every other object as it was: a factory built earlier keeps its hash
    object, which is not the new one, and its [new] and [validate] return
    what they returned before. *)
Theorem init_keeps_factories secret hashalg st self o :
  heap st !! _hash self = Some o ->
  exists self2 st2,
    __init__ secret hashalg st = (Ok self2, st2)
    /\ _secret self2 = secret
    /\ heap st2 !! _hash self2 = Some {| algorithm := hashalg; fed := [] |}
    /\ _hash self2 <> _hash self
    /\ heap st2 !! _hash self = Some o
    /\ (forall uid toks ud vu ip enc,
           fst (new self uid toks ud vu ip enc st2)
           = fst (new self uid toks ud vu ip enc st))
    /\ (forall ticket ip now enc,
           fst (validate self ticket ip now enc st2)
           = fst (validate self ticket ip now enc st)).
Proof.
  intros Ho.
  destruct (__init___run secret hashalg st) as (self2 & st2 & Hi & Hs & Hl & ->).
  exists self2, (extend [{| algorithm := hashalg; fed := [] |}] st).
  assert (Ho2 : heap (extend [{| algorithm := hashalg; fed := [] |}] st)
                  !! _hash self = Some o) by now apply extend_lookup.
  repeat split; try assumption.
  - intros E. apply lookup_lt_Some in Ho.
    unfold __init__, hashlib_new in Hi. monad_unfold.
    injection Hi as <-. cbn [_hash] in E. lia.
  - intros. now apply (new_fst_indep _ _ _ o).
  - intros. now apply (validate_fst_indep _ _ _ o).
Qed.

Lemma init_keeps_factories_witness :
  exists self2 st2,
    __init__ (lit "other") sha512 demo_state = (Ok self2, st2)
    /\ _hash self2 <> _hash demo_factory
    /\ heap st2 !! _hash demo_factory = Some demo_hash.
Proof.
  destruct (init_keeps_factories (lit "other") sha512 demo_state demo_factory
              demo_hash eq_refl)
    as (self2 & st2 & H1 & _ & _ & H4 & H5 & _).
  exists self2, st2. exact (conj H1 (conj H4 H5)).
Defined.
